(** * MultiGame Chat Translator: the ingestion / translation / delivery core

    A shallow embedding of [src/main.py]: the LRU translation cache
    ([SimpleLRU] over [collections.OrderedDict]), the three source adapters,
    the translation service wrapper ([Translator]) and the session
    ([TranslatorApp]: start, stop, the dispatch worker and the UI poller).

    Conventions.
    - A Python [str] is a [string]; its characters are code points below 256.
    - Mutable objects are records threaded through explicitly; every method
      takes the object and returns the updated object.
    - A call that may raise returns an [outcome]; the state that comes with
      it is the state at the moment of the raise.
    - Threads are not modelled: each background loop is given as the function
      of one loop iteration, driven by an explicit list of events.  Where
      the moment of a call of [stop] within an iteration matters, the loop
      is also given tick by tick ([tick_step]), the test of the loop and
      the body of the iteration being separate moves.
    - Sleeps and polling intervals (floats) have no counterpart here. *)

From Stdlib Require Import List String Ascii Bool Arith ZArith Lia.
Import ListNotations.

Open Scope string_scope.
Open Scope list_scope.
Open Scope nat_scope.

Infix "+++" := String.append (at level 60, right associativity).

(** ** Python values shared by all components *)

Inductive outcome (E A : Type) : Type :=
| Return (a : A)
| Raise (e : E).
Arguments Return {E A} a.
Arguments Raise {E A} e.

Class EqDec (A : Type) := eq_dec : forall x y : A, {x = y} + {x <> y}.

#[export] Instance string_EqDec : EqDec string := string_dec.

Module PyStr.

Definition LF : ascii := "010"%char.
Definition CR : ascii := "013"%char.

(** The one-character text that ends a line. *)
Definition NL : string := String LF EmptyString.

(** [str.isspace] on one character, for code points below 256. *)
Definition isspace (c : ascii) : bool :=
  let n := nat_of_ascii c in
  ((9 <=? n) && (n <=? 13)) || ((28 <=? n) && (n <=? 32))
  || (n =? 133) || (n =? 160).

(** Truth value of a [str]: the empty string is false. *)
Definition truthy (s : string) : bool :=
  match s with EmptyString => false | String _ _ => true end.

Fixpoint lstrip (s : string) : string :=
  match s with
  | EmptyString => EmptyString
  | String c r => if isspace c then lstrip r else s
  end.

Fixpoint rstrip (s : string) : string :=
  match s with
  | EmptyString => EmptyString
  | String c r =>
      match rstrip r with
      | EmptyString => if isspace c then EmptyString else String c EmptyString
      | r' => String c r'
      end
  end.

(** [s.strip()] *)
Definition strip (s : string) : string := rstrip (lstrip s).

(** [s.startswith(p)] *)
Definition startswith (s p : string) : bool := String.prefix p s.

(** [s.replace(a, b)] for one-character [a] and [b]. *)
Fixpoint replace (a b : ascii) (s : string) : string :=
  match s with
  | EmptyString => EmptyString
  | String c r => String (if Ascii.eqb c a then b else c) (replace a b r)
  end.

(** [s.split(sep)] for a one-character separator: one more piece than
    there are separators, empty pieces kept. *)
Fixpoint split (sep : ascii) (s : string) : list string :=
  match s with
  | EmptyString => [EmptyString]
  | String c r =>
      if Ascii.eqb c sep then EmptyString :: split sep r
      else match split sep r with
           | h :: t => String c h :: t
           | [] => [String c EmptyString]
           end
  end.

(** The text of a stream from offset [n] on. *)
Fixpoint skip (n : nat) (s : string) : string :=
  match n, s with
  | O, _ => s
  | S n', String _ r => skip n' r
  | S _, EmptyString => EmptyString
  end.

(** One line off the front of a text: up to and including the first
    newline, or all of it when there is none. *)
Fixpoint take_line (s : string) : string :=
  match s with
  | EmptyString => EmptyString
  | String c r =>
      if Ascii.eqb c LF then String c EmptyString else String c (take_line r)
  end.

(** [c not in s] for a character [c]. *)
Fixpoint lacks (c : ascii) (s : string) : bool :=
  match s with
  | EmptyString => true
  | String c' r => negb (Ascii.eqb c' c) && lacks c r
  end.

(** Python's [a or b] on values that are [None] or a [str]. *)
Definition or_else (a b : option string) : option string :=
  match a with
  | Some s => if truthy s then a else b
  | None => b
  end.

(** [not x] for a value that is [None] or a [str]. *)
Definition falsy (a : option string) : bool :=
  match a with
  | Some s => negb (truthy s)
  | None => true
  end.

End PyStr.

(** ** collections.OrderedDict

    An insertion-ordered dictionary is the list of its items, oldest first.
    Operations that raise [KeyError] return [None]. *)

Module OrderedDict.
Section Dict.
Context {K V : Type} `{EqDec K}.

Definition t : Type := list (K * V).

Definition keys (d : t) : list K := map fst d.

Definition len (d : t) : nat := List.length d.

(** [d[key]] *)
Fixpoint getitem (key : K) (d : t) : option V :=
  match d with
  | [] => None
  | (k, v) :: r => if eq_dec key k then Some v else getitem key r
  end.

(** [key in d] *)
Definition contains (key : K) (d : t) : bool :=
  match getitem key d with Some _ => true | None => false end.

(** [d[key] = value]: an existing key keeps its position, a new key goes
    to the end. *)
Fixpoint setitem (key : K) (value : V) (d : t) : t :=
  match d with
  | [] => [(key, value)]
  | (k, v) :: r =>
      if eq_dec key k then (k, value) :: r else (k, v) :: setitem key value r
  end.

Fixpoint delitem (key : K) (d : t) : t :=
  match d with
  | [] => []
  | (k, v) :: r => if eq_dec key k then r else (k, v) :: delitem key r
  end.

(** [d.move_to_end(key)] *)
Definition move_to_end (key : K) (d : t) : option t :=
  match getitem key d with
  | Some v => Some (delitem key d ++ [(key, v)])
  | None => None
  end.

(** [d.popitem(last=False)] *)
Definition popitem_first (d : t) : option ((K * V) * t) :=
  match d with
  | [] => None
  | kv :: r => Some (kv, r)
  end.

(** A dictionary holds each key once. *)
Definition wf (d : t) : Prop := NoDup (keys d).

(** The keys of a list come in strictly rising order of a measure: each
    key has a smaller measure than every key after it. *)
Fixpoint rising (f : K -> nat) (ks : list K) : Prop :=
  match ks with
  | [] => True
  | k :: r => Forall (fun j => f k < f j) r /\ rising f r
  end.

(** [j] sits before [k] in the order of the dictionary. *)
Definition precedes (j k : K) (d : t) : Prop :=
  exists d1 d2, d = d1 ++ d2 /\ In j (keys d1) /\ In k (keys d2).

End Dict.
Arguments t : clear implicits.
End OrderedDict.

(** ** class SimpleLRU *)

Module SimpleLRU.

(** What escapes a method of the cache: the [KeyError] of
    [move_to_end] or [d[key]] on an absent key, or the one of [popitem]
    on an empty dictionary. *)
Inductive exn (K : Type) : Type :=
| KeyError (key : K)
| KeyErrorEmpty.
Arguments KeyError {K} key.
Arguments KeyErrorEmpty {K}.

(** The capacity is a number of items. *)
Record t (K V : Type) : Type := mk
  { capacity : nat;
    cache : OrderedDict.t K V }.
Arguments mk {K V} capacity cache.
Arguments capacity {K V}.
Arguments cache {K V}.

Section LRU.
Context {K V : Type} `{EqDec K}.

(** [SimpleLRU(capacity)] *)
Definition init (capacity : nat) : t K V := mk capacity [].

Definition set_cache (s : t K V) (d : OrderedDict.t K V) : t K V :=
  mk (capacity s) d.

(** [get(key)]: the value, or [None], and the cache afterwards. *)
Definition get (key : K) (s : t K V) : outcome (exn K) (option V) * t K V :=
  if OrderedDict.contains key (cache s) then
    match OrderedDict.move_to_end key (cache s) with
    | None => (Raise (KeyError key), s)
    | Some d =>
        match OrderedDict.getitem key d with
        | None => (Raise (KeyError key), set_cache s d)
        | Some v => (Return (Some v), set_cache s d)
        end
    end
  else (Return None, s).

(** [put(key, value)] *)
Definition put (key : K) (value : V) (s : t K V)
  : outcome (exn K) unit * t K V :=
  let d1 := OrderedDict.setitem key value (cache s) in
  match OrderedDict.move_to_end key d1 with
  | None => (Raise (KeyError key), set_cache s d1)
  | Some d2 =>
      if capacity s <? OrderedDict.len d2 then
        match OrderedDict.popitem_first d2 with
        | None => (Raise KeyErrorEmpty, set_cache s d2)
        | Some (_, d3) => (Return tt, set_cache s d3)
        end
      else (Return tt, set_cache s d2)
  end.

(** Clients of the cache: a run of [put]s, and a run of mixed calls. *)
Fixpoint put_all (kvs : list (K * V)) (s : t K V)
  : outcome (exn K) unit * t K V :=
  match kvs with
  | [] => (Return tt, s)
  | (k, v) :: r =>
      match put k v s with
      | (Return _, s') => put_all r s'
      | (Raise e, s') => (Raise e, s')
      end
  end.

Inductive call : Type :=
| Get (key : K)
| Put (key : K) (value : V).

Definition call_key (c : call) : K :=
  match c with Get k => k | Put k _ => k end.

Definition run_call (c : call) (s : t K V) : outcome (exn K) unit * t K V :=
  match c with
  | Get k =>
      match get k s with
      | (Return _, s') => (Return tt, s')
      | (Raise e, s') => (Raise e, s')
      end
  | Put k v => put k v s
  end.

Fixpoint run_calls (cs : list call) (s : t K V)
  : outcome (exn K) unit * t K V :=
  match cs with
  | [] => (Return tt, s)
  | c :: r =>
      match run_call c s with
      | (Return _, s') => run_calls r s'
      | (Raise e, s') => (Raise e, s')
      end
  end.

(** When a key was last used in a history of calls: the position, counted
    from 1, of the last call that names the key, and 0 if none does.  (For
    a key the cache holds, that call was a [put] or a [get] that found
    it.) *)
Fixpoint last_use (k : K) (cs : list call) : nat :=
  match cs with
  | [] => 0
  | c :: r =>
      match last_use k r with
      | 0 => if eq_dec (call_key c) k then 1 else 0
      | S m => S (S m)
      end
  end.

End LRU.
Arguments call : clear implicits.
End SimpleLRU.

(** ** The items on the two queues

    Both queues carry plain Python values.  An adapter puts a [str] on the
    ingest queue: a line, or an error text that starts with [__ERROR__].
    The worker puts on the render queue either such a [str] or a pair
    [(original, translated)]. *)

Definition ERROR_TAG : string := "__ERROR__".

Inductive rendered : Type :=
| RStr (s : string)
| RPair (orig trans : string).

(** No item of a queue is followed at once by an equal item. *)
Fixpoint no_repeat (q : list string) : Prop :=
  match q with
  | x :: r =>
      match r with
      | y :: _ => x <> y
      | [] => True
      end /\ no_repeat r
  | [] => True
  end.

(** ** class FileAdapter *)

Module FileAdapter.

Record t : Type := mk { path : string; _stop : bool }.

Definition init (path : string) : t := mk path false.

Definition stop (a : t) : t := mk (path a) true.

Definition error_text (e : string) : string :=
  "__ERROR__ FileAdapter: " +++ e.

(** [f.readline()] at offset [pos] of [file], the text of the file as the
    text-mode stream presents it (decoded, line ends as newlines). *)
Definition readline (file : string) (pos : nat) : string :=
  PyStr.take_line (PyStr.skip pos file).

(** What happens around the adapter thread: text is appended to the file,
    [stop] is called, or the loop of [run] makes one iteration, in which
    [readline] returns or raises. *)
Inductive event : Type :=
| Append (s : string)
| StopRequest
| Iterate
| IterateRaises (e : string).

(** Where [run] stands: inside the loop with the file open at an offset,
    or returned. *)
Inductive phase : Type :=
| Looping (pos : nat)
| Finished.

Record state : Type := mk_state
  { self : t;
    file : string;
    at_ : phase;
    out_queue : list string }.

(** Entry of [run]: [open] raises [open_raises], or the file is opened and
    the offset is moved to the end of what it holds. *)
Definition enter (a : t) (file : string) (open_raises : option string)
  : state :=
  match open_raises with
  | Some e => mk_state a file Finished [error_text e]
  | None => mk_state a file (Looping (String.length file)) []
  end.

Definition step (st : state) (ev : event) : state :=
  match ev with
  | Append s => mk_state (self st) (file st +++ s) (at_ st) (out_queue st)
  | StopRequest => mk_state (stop (self st)) (file st) (at_ st) (out_queue st)
  | Iterate =>
      match at_ st with
      | Finished => st
      | Looping pos =>
          if _stop (self st) then
            mk_state (self st) (file st) Finished (out_queue st)
          else
            let line := readline (file st) pos in
            if PyStr.truthy line then
              mk_state (self st) (file st)
                (Looping (pos + String.length line))
                (out_queue st ++ [PyStr.strip line])
            else st
      end
  | IterateRaises e =>
      match at_ st with
      | Finished => st
      | Looping pos =>
          if _stop (self st) then
            mk_state (self st) (file st) Finished (out_queue st)
          else
            mk_state (self st) (file st) Finished
              (out_queue st ++ [error_text e])
      end
  end.

(** [run(out_queue)] on a file that holds [file] when it is opened. *)
Definition run (a : t) (file : string) (open_raises : option string)
    (evs : list event) : state :=
  fold_left step evs (enter a file open_raises).







(** Reference behaviour, in the words of the amended claim: what a run
    emits, told from the appended text alone.  [unread] is the appended
    text not yet read.  An iteration takes the piece of [unread] that runs
    up to and including its first newline, or all of it when it has no
    newline, and emits the piece stripped, unless there is nothing to read;
    a read that raises emits the error text and ends the run; an iteration
    that finds the stop flag set ends the run. *)
Fixpoint follow (unread : string) (stopped : bool) (evs : list event)
  : list string :=
  match evs with
  | [] => []
  | Append s :: r => follow (unread +++ s) stopped r
  | StopRequest :: r => follow unread true r
  | Iterate :: r =>
      if stopped then []
      else
        let line := PyStr.take_line unread in
        if PyStr.truthy line then
          PyStr.strip line
          :: follow (PyStr.skip (String.length line) unread) stopped r
        else follow unread stopped r
  | IterateRaises e :: r =>
      if stopped then [] else [error_text e]
  end.


(** The loop of [run] at a finer grain.  [_stop] is read in one place, the
    test of the loop (line 44); [stop] is called from another thread and can
    fall between that test and the body of the iteration (lines 45 to 49),
    or before [run] is entered.  A [tick] is one of: text written to the
    file, a call of [stop], the test of the loop, the body of one
    iteration, in which [readline] returns or raises. *)
Inductive tick : Type :=
| Written (s : string)
| StopCalled
| LoopTest
| LoopBody (raises : option string).

(** Where the thread of [run] stands: about to test the loop, past the test
    and about to read, or returned. *)
Inductive place : Type :=
| AtTest (pos : nat)
| InBody (pos : nat)
| Returned.

Record thread : Type := mk_thread
  { t_self : t;
    t_file : string;
    t_at : place;
    t_queue : list string }.

Definition enter_thread (a : t) (file : string) (open_raises : option string)
  : thread :=
  match open_raises with
  | Some e => mk_thread a file Returned [error_text e]
  | None => mk_thread a file (AtTest (String.length file)) []
  end.

(** A tick that is not the thread's next move leaves it where it is. *)
Definition tick_step (th : thread) (ev : tick) : thread :=
  match ev with
  | Written s => mk_thread (t_self th) (t_file th +++ s) (t_at th) (t_queue th)
  | StopCalled => mk_thread (stop (t_self th)) (t_file th) (t_at th) (t_queue th)
  | LoopTest =>
      match t_at th with
      | AtTest pos =>
          if _stop (t_self th) then
            mk_thread (t_self th) (t_file th) Returned (t_queue th)
          else mk_thread (t_self th) (t_file th) (InBody pos) (t_queue th)
      | _ => th
      end
  | LoopBody raises =>
      match t_at th with
      | InBody pos =>
          match raises with
          | Some e =>
              mk_thread (t_self th) (t_file th) Returned
                (t_queue th ++ [error_text e])
          | None =>
              let line := readline (t_file th) pos in
              if PyStr.truthy line then
                mk_thread (t_self th) (t_file th)
                  (AtTest (pos + String.length line))
                  (t_queue th ++ [PyStr.strip line])
              else mk_thread (t_self th) (t_file th) (AtTest pos) (t_queue th)
          end
      | _ => th
      end
  end.

Definition run_ticks (a : t) (file : string) (open_raises : option string)
    (ticks : list tick) : thread :=
  fold_left tick_step ticks (enter_thread a file open_raises).

(** An event of the coarser account as ticks: an iteration is its test
    followed at once by its body. *)
Definition ticks_of (ev : event) : list tick :=
  match ev with
  | Append s => [Written s]
  | StopRequest => [StopCalled]
  | Iterate => [LoopTest; LoopBody None]
  | IterateRaises e => [LoopTest; LoopBody (Some e)]
  end.

(** The same moment of a run in the two accounts. *)
Definition same_moment (st : state) (th : thread) : Prop :=
  self st = t_self th
  /\ file st = t_file th
  /\ out_queue st = t_queue th
  /\ match at_ st, t_at th with
     | Looping p, AtTest p' => p = p'
     | Finished, Returned => True
     | _, _ => False
     end.

End FileAdapter.

(** ** class OCRAdapter *)

Module OCRAdapter.

Record t : Type := mk
  { bbox : list Z;
    _stop : bool;
    _last_text : string }.

Definition default_bbox : list Z := [0; 0; 800; 200]%Z.

Definition init (bbox : list Z) : t := mk bbox false "".

Definition stop (a : t) : t := mk (bbox a) true (_last_text a).

Definition set_last_text (a : t) (l : string) : t := mk (bbox a) (_stop a) l.

Definition error_text (e : string) : string :=
  "__ERROR__ OCRAdapter: " +++ e.

(** One screen grab followed by the OCR call: a text, or an exception. *)
Inductive capture : Type :=
| Text (s : string)
| Raises (e : string).

(** [[l.strip() for l in text.split('\n') if l.strip()]] after
    [replace('\r', '\n')]. *)
Definition lines (text : string) : list string :=
  let text := PyStr.replace PyStr.CR PyStr.LF text in
  map PyStr.strip
    (filter (fun l => PyStr.truthy (PyStr.strip l))
       (PyStr.split PyStr.LF text)).

(** The [for l in lines] loop. *)
Fixpoint emit (ls : list string) (a : t) (out_queue : list string)
  : t * list string :=
  match ls with
  | [] => (a, out_queue)
  | l :: r =>
      if negb (String.eqb l (_last_text a)) then
        emit r (set_last_text a l) (out_queue ++ [l])
      else emit r a out_queue
  end.

Inductive event : Type :=
| Poll (c : capture)
| StopRequest.

(** One event around the loop of [run]; a poll is one iteration. *)
Definition step (st : t * list string) (ev : event) : t * list string :=
  let (a, out_queue) := st in
  match ev with
  | StopRequest => (stop a, out_queue)
  | Poll c =>
      if _stop a then st
      else match c with
           | Text s => emit (lines s) a out_queue
           | Raises e => (a, out_queue ++ [error_text e])
           end
  end.

Definition run (a : t) (evs : list event) : t * list string :=
  fold_left step evs (a, []).

(** The loop of [run] at a finer grain.  [_stop] is read in one place, the
    test of the loop (line 62); [stop] is called from another thread and can
    fall between that test and the body of the iteration (lines 63 to 74).
    A [tick] is a call of [stop], the test of the loop, or the body of one
    iteration with what the screen grab and the OCR call give. *)
Inductive tick : Type :=
| StopCalled
| LoopTest
| LoopBody (c : capture).

Inductive place : Type :=
| AtTest
| InBody
| Returned.

Record thread : Type := mk_thread
  { t_self : t;
    t_at : place;
    t_queue : list string }.

(** Lines 63 to 74 for one capture. *)
Definition body (c : capture) (a : t) (out_queue : list string)
  : t * list string :=
  match c with
  | Text s => emit (lines s) a out_queue
  | Raises e => (a, out_queue ++ [error_text e])
  end.

(** A tick that is not the thread's next move leaves it where it is. *)
Definition tick_step (th : thread) (ev : tick) : thread :=
  match ev with
  | StopCalled => mk_thread (stop (t_self th)) (t_at th) (t_queue th)
  | LoopTest =>
      match t_at th with
      | AtTest =>
          if _stop (t_self th) then mk_thread (t_self th) Returned (t_queue th)
          else mk_thread (t_self th) InBody (t_queue th)
      | _ => th
      end
  | LoopBody c =>
      match t_at th with
      | InBody =>
          let (a, q) := body c (t_self th) (t_queue th) in
          mk_thread a AtTest q
      | _ => th
      end
  end.

Definition run_ticks (a : t) (ticks : list tick) : thread :=
  fold_left tick_step ticks (mk_thread a AtTest []).

(** An event of the coarser account as ticks: a poll is the test of the
    loop followed at once by the body. *)
Definition ticks_of (ev : event) : list tick :=
  match ev with
  | Poll c => [LoopTest; LoopBody c]
  | StopRequest => [StopCalled]
  end.

End OCRAdapter.

(** ** class ClipboardAdapter *)

Module ClipboardAdapter.

Record t : Type := mk
  { _stop : bool;
    _last : option string }.

Definition init : t := mk false None.

Definition stop (a : t) : t := mk true (_last a).

Definition error_text (e : string) : string :=
  "__ERROR__ ClipboardAdapter: " +++ e.

(** What [pyperclip.paste()] gives: a [str], some other value, or an
    exception. *)
Inductive paste : Type :=
| Str (txt : string)
| NotStr
| Raises (e : string).

(** [txt != self._last] *)
Definition differs (txt : string) (last : option string) : bool :=
  match last with
  | None => true
  | Some l => negb (String.eqb txt l)
  end.

Inductive event : Type :=
| Poll (p : paste)
| StopRequest.

Definition step (st : t * list string) (ev : event) : t * list string :=
  let (a, out_queue) := st in
  match ev with
  | StopRequest => (stop a, out_queue)
  | Poll p =>
      if _stop a then st
      else match p with
           | Str txt =>
               if PyStr.truthy (PyStr.strip txt) && differs txt (_last a)
               then (mk (_stop a) (Some txt), out_queue ++ [PyStr.strip txt])
               else st
           | NotStr => st
           | Raises e => (a, out_queue ++ [error_text e])
           end
  end.

Definition run (a : t) (evs : list event) : t * list string :=
  fold_left step evs (a, []).

(** The loop of [run] at a finer grain.  [_stop] is read in one place, the
    test of the loop (line 84); [stop] is called from another thread and can
    fall between that test and the body of the iteration (lines 85 to 93).
    A [tick] is a call of [stop], the test of the loop, or the body of one
    iteration with what [paste] gives. *)
Inductive tick : Type :=
| StopCalled
| LoopTest
| LoopBody (p : paste).

Inductive place : Type :=
| AtTest
| InBody
| Returned.

Record thread : Type := mk_thread
  { t_self : t;
    t_at : place;
    t_queue : list string }.

(** Lines 85 to 93 for one paste. *)
Definition body (p : paste) (a : t) (out_queue : list string)
  : t * list string :=
  match p with
  | Str txt =>
      if PyStr.truthy (PyStr.strip txt) && differs txt (_last a)
      then (mk (_stop a) (Some txt), out_queue ++ [PyStr.strip txt])
      else (a, out_queue)
  | NotStr => (a, out_queue)
  | Raises e => (a, out_queue ++ [error_text e])
  end.

(** A tick that is not the thread's next move leaves it where it is. *)
Definition tick_step (th : thread) (ev : tick) : thread :=
  match ev with
  | StopCalled => mk_thread (stop (t_self th)) (t_at th) (t_queue th)
  | LoopTest =>
      match t_at th with
      | AtTest =>
          if _stop (t_self th) then mk_thread (t_self th) Returned (t_queue th)
          else mk_thread (t_self th) InBody (t_queue th)
      | _ => th
      end
  | LoopBody p =>
      match t_at th with
      | InBody =>
          let (a, q) := body p (t_self th) (t_queue th) in
          mk_thread a AtTest q
      | _ => th
      end
  end.

Definition run_ticks (a : t) (ticks : list tick) : thread :=
  fold_left tick_step ticks (mk_thread a AtTest []).

(** An event of the coarser account as ticks: a poll is the test of the
    loop followed at once by the body. *)
Definition ticks_of (ev : event) : list tick :=
  match ev with
  | Poll p => [LoopTest; LoopBody p]
  | StopRequest => [StopCalled]
  end.

End ClipboardAdapter.

(** ** class Translator *)

Module Translator.

(** The chat-completion request; the temperature is the constant 0.2. *)
Record request : Type := mk_request
  { req_model : string;
    req_system : string;
    req_user : string;
    req_max_tokens : nat }.

(** What the statements from the client call to [.strip()] yield: the
    message content, or an exception with its text. *)
Inductive response : Type :=
| Content (text : string)
| Fails (e : string).

(** The external service answers a request knowing the requests made
    before it. *)
Definition service : Type := list request -> request -> response.

Record t : Type := mk
  { api_key : option string;
    model : string;
    system_prompt : string;
    cache : SimpleLRU.t string string }.

Definition DEFAULT_MODEL : string := "gpt-4.1-mini".

Definition DEFAULT_SYSTEM_PROMPT : string :=
  "You are a helpful translation assistant. Translate game chat while preserving tone, slang, and meaning.".

Definition init (environ_key api_key : option string) (model : string)
    (system_prompt : option string) : t :=
  mk (PyStr.or_else api_key environ_key)
     model
     (match PyStr.or_else system_prompt (Some DEFAULT_SYSTEM_PROMPT) with
      | Some s => s
      | None => DEFAULT_SYSTEM_PROMPT
      end)
     (SimpleLRU.init 1500).

Definition set_cache (tr : t) (c : SimpleLRU.t string string) : t :=
  mk (api_key tr) (model tr) (system_prompt tr) c.

(** The items of the translator's cache, least recently used first. *)
Definition entries (tr : t) : OrderedDict.t string string :=
  SimpleLRU.cache (cache tr).

Definition cache_key (target_language text : string) : string :=
  target_language +++ "::" +++ text.

Definition prompt (target_language text : string) : string :=
  "Translate the following chat message to " +++ target_language
  +++ ". Preserve tone and slang. Only return the translation text."
  +++ String PyStr.LF (String PyStr.LF "Message: ") +++ text.

Definition error_text (e : string) : string :=
  "__ERROR__ Translator: " +++ e.

(** The text of a [KeyError] (quoting of the key is not modelled beyond
    the surrounding quotes). *)
Definition exn_str (e : SimpleLRU.exn string) : string :=
  match e with
  | SimpleLRU.KeyError k => "'" +++ k +++ "'"
  | SimpleLRU.KeyErrorEmpty => "'dictionary is empty'"
  end.

Definition state : Type := (t * list request)%type.

(** The request [translate] sends for a text. *)
Definition request_for (tr : t) (text target_language : string) : request :=
  mk_request (model tr) (system_prompt tr) (prompt target_language text) 800.

(** The [try] block of [translate], entered on a cache miss. *)
Definition fetch (svc : service) (text target_language key : string)
    (tr : t) (calls : list request) : string * state :=
  let req := request_for tr text target_language in
  match svc calls req with
  | Fails e => (error_text e, (tr, calls ++ [req]))
  | Content content =>
      let translated := PyStr.strip content in
      match SimpleLRU.put key translated (cache tr) with
      | (Return _, c) => (translated, (set_cache tr c, calls ++ [req]))
      | (Raise e, c) =>
          (error_text (exn_str e), (set_cache tr c, calls ++ [req]))
      end
  end.

(** [translate(text, target_language)]; the list of requests made so far
    is threaded along with the translator. *)
Definition translate (svc : service) (text target_language : string)
    (st : state) : outcome (SimpleLRU.exn string) string * state :=
  let (tr, calls) := st in
  let key := cache_key target_language text in
  match SimpleLRU.get key (cache tr) with
  | (Raise e, c) => (Raise e, (set_cache tr c, calls))
  | (Return cached, c) =>
      let miss : outcome (SimpleLRU.exn string) string * state :=
        let (r, st') :=
          fetch svc text target_language key (set_cache tr c) calls
        in (Return r, st')
      in
      match cached with
      | Some v =>
          if PyStr.truthy v then (Return v, (set_cache tr c, calls))
          else miss
      | None => miss
      end
  end.

(** A client of the translator: a run of calls of [translate], each with
    its text and its target language, up to the first one that raises; the
    values returned, in order. *)
Fixpoint translate_all (svc : service) (jobs : list (string * string))
    (st : state) : outcome (SimpleLRU.exn string) (list string) * state :=
  match jobs with
  | [] => (Return [], st)
  | (text, target_language) :: rest =>
      match translate svc text target_language st with
      | (Raise e, st') => (Raise e, st')
      | (Return r, st') =>
          match translate_all svc rest st' with
          | (Raise e, st'') => (Raise e, st'')
          | (Return rs, st'') => (Return (r :: rs), st'')
          end
      end
  end.

End Translator.

(** ** class TranslatorApp: the session *)

Module TranslatorApp.

Inductive any_adapter : Type :=
| File (a : FileAdapter.t)
| OCR (a : OCRAdapter.t)
| Clipboard (a : ClipboardAdapter.t).

(** [adapter.stop()] on whichever adapter it is. *)
Definition adapter_stop (a : any_adapter) : any_adapter :=
  match a with
  | File x => File (FileAdapter.stop x)
  | OCR x => OCR (OCRAdapter.stop x)
  | Clipboard x => Clipboard (ClipboardAdapter.stop x)
  end.

(** The two kinds of daemon thread a session starts. *)
Inductive thread : Type :=
| AdapterRun
| Worker (target_language : string).

(** What the user has entered in the window. *)
Record inputs : Type := mk_inputs
  { adapter_select : string;
    source_input : string;
    lang_select : string;
    api_key_input : string;
    overlay_checkbox : bool }.

(** What the process sees of its environment: the [OPENAI_API_KEY]
    variable, [os.path.exists], and the built-in [int] on a [str]
    ([None] when it raises). *)
Record environment : Type := mk_environment
  { environ_api_key : option string;
    path_exists : string -> bool;
    py_int : string -> option Z }.

Record t : Type := mk
  { in_queue : list string;
    out_queue : list rendered;
    adapter_thread : option thread;
    adapter : option any_adapter;
    translator : option Translator.t;
    worker_thread : option thread;
    running : bool;
    log : list string;
    ui : inputs;
    start_btn_enabled : bool;
    stop_btn_enabled : bool;
    (* effects outside the object: message boxes shown, threads started *)
    dialogs : list (string * string);
    threads : list thread }.

(** The choices the two combo boxes offer. *)
Definition ADAPTERS : list string := ["file"; "ocr"; "clipboard"].

Definition LANGUAGES : list string :=
  ["Spanish"; "French"; "German"; "Japanese"; "Korean";
   "Chinese (Simplified)"; "Portuguese"; "Russian"; "Arabic"].

(** [__init__], with the window as the user will have filled it in. *)
Definition init (ui : inputs) : t :=
  mk [] [] None None None None false [] ui true false [] [].

Definition warning (a : t) (title text : string) : t :=
  mk (in_queue a) (out_queue a) (adapter_thread a) (adapter a)
     (translator a) (worker_thread a) (running a) (log a) (ui a)
     (start_btn_enabled a) (stop_btn_enabled a)
     (dialogs a ++ [(title, text)]) (threads a).

Definition set_translator (a : t) (tr : option Translator.t) : t :=
  mk (in_queue a) (out_queue a) (adapter_thread a) (adapter a)
     tr (worker_thread a) (running a) (log a) (ui a)
     (start_btn_enabled a) (stop_btn_enabled a) (dialogs a) (threads a).

Definition set_in_queue (a : t) (q : list string) : t :=
  mk q (out_queue a) (adapter_thread a) (adapter a)
     (translator a) (worker_thread a) (running a) (log a) (ui a)
     (start_btn_enabled a) (stop_btn_enabled a) (dialogs a) (threads a).

Definition set_out_queue (a : t) (q : list rendered) : t :=
  mk (in_queue a) q (adapter_thread a) (adapter a)
     (translator a) (worker_thread a) (running a) (log a) (ui a)
     (start_btn_enabled a) (stop_btn_enabled a) (dialogs a) (threads a).

Definition log_append (a : t) (line : string) : t :=
  mk (in_queue a) (out_queue a) (adapter_thread a) (adapter a)
     (translator a) (worker_thread a) (running a) (log a ++ [line]) (ui a)
     (start_btn_enabled a) (stop_btn_enabled a) (dialogs a) (threads a).

(** The tail of [start], once an adapter has been built. *)
Definition launch (a : t) (ad : any_adapter)
    (adapter_name target_language : string)
  : t :=
  mk (in_queue a) (out_queue a) (Some AdapterRun) (Some ad)
     (translator a) (Some (Worker target_language)) true
     (log a ++ ["[System] Started adapter: " +++ adapter_name]) (ui a)
     false true (dialogs a)
     (threads a ++ [AdapterRun; Worker target_language]).

(** [[int(p.strip()) for p in source.split(',')]] *)
Fixpoint parse_ints (env : environment) (ps : list string) : option (list Z) :=
  match ps with
  | [] => Some []
  | p :: r =>
      match py_int env (PyStr.strip p) with
      | None => None
      | Some z =>
          match parse_ints env r with
          | None => None
          | Some zs => Some (z :: zs)
          end
      end
  end.

(** The [try] block that reads the bounding box: [None] when it raises. *)
Definition parse_bbox (env : environment) (source : string) : option (list Z) :=
  match parse_ints env (PyStr.split ","%char source) with
  | Some parts => if List.length parts =? 4 then Some parts else None
  | None => None
  end.

Definition start (env : environment) (a : t) : t :=
  if running a then a
  else
    let api_key :=
      PyStr.or_else (Some (PyStr.strip (api_key_input (ui a))))
                    (environ_api_key env) in
    if PyStr.falsy api_key then
      warning a "Missing API Key"
        "Please enter your OpenAI API key or set OPENAI_API_KEY env variable."
    else
      let target_language := lang_select (ui a) in
      let adapter_name := adapter_select (ui a) in
      let source := PyStr.strip (source_input (ui a)) in
      let a :=
        set_translator a
          (Some (Translator.init (environ_api_key env) api_key
                   "gpt-4.1-mini" None)) in
      if String.eqb adapter_name "file" then
        if negb (PyStr.truthy source) || negb (path_exists env source) then
          warning a "Bad file"
            "Please select a valid file path for the chat log."
        else launch a (File (FileAdapter.init source))
               adapter_name target_language
      else if String.eqb adapter_name "ocr" then
        if negb (PyStr.truthy source) then
          warning a "Bad bbox"
            "Enter bbox coordinates in 'Source' field (left,top,right,bottom)"
        else
          match parse_bbox env source with
          | None =>
              warning a "Bad bbox"
                "Invalid bbox format. Use: left,top,right,bottom"
          | Some parts =>
              launch a (OCR (OCRAdapter.init parts))
                adapter_name target_language
          end
      else if String.eqb adapter_name "clipboard" then
        launch a (Clipboard ClipboardAdapter.init)
          adapter_name target_language
      else warning a "Adapter" "Unknown adapter".

Definition stop (a : t) : t :=
  if negb (running a) then a
  else
    mk (in_queue a) (out_queue a) (adapter_thread a)
       (match adapter a with
        | Some ad => Some (adapter_stop ad)
        | None => None
        end)
       (translator a) (worker_thread a) false
       (log a ++ ["[System] Stopped."]) (ui a)
       true false (dialogs a) (threads a).

(** What can escape the worker or the poller. *)
Inductive exn : Type :=
| AttributeError                       (* [self.translator] is [None] *)
| FromCache (e : SimpleLRU.exn string) (* raised by [translate] *)
| ValueError.                          (* unpacking something not a pair *)

Definition world : Type := (t * list Translator.request)%type.

(** One pass of the [while self.running] loop of [_worker]; an empty
    ingest queue is the [queue.Empty] timeout. *)
Definition worker_iteration (svc : Translator.service)
    (target_language : string) (w : world) : outcome exn unit * world :=
  let (a, calls) := w in
  if negb (running a) then (Return tt, w)
  else
    match in_queue a with
    | [] => (Return tt, w)
    | item :: rest =>
        let a := set_in_queue a rest in
        if PyStr.startswith item ERROR_TAG then
          (Return tt, (set_out_queue a (out_queue a ++ [RStr item]), calls))
        else
          match translator a with
          | None => (Raise AttributeError, (a, calls))
          | Some tr =>
              match Translator.translate svc item target_language (tr, calls)
              with
              | (Raise e, (tr', calls')) =>
                  (Raise (FromCache e), (set_translator a (Some tr'), calls'))
              | (Return translated, (tr', calls')) =>
                  let a := set_translator a (Some tr') in
                  (Return tt,
                   (set_out_queue a (out_queue a ++ [RPair item translated]),
                    calls'))
              end
          end
    end.

(** [_worker(target_language)], for a number of passes of its loop. *)
Fixpoint _worker (svc : Translator.service) (target_language : string)
    (passes : nat) (w : world) : outcome exn unit * world :=
  match passes with
  | O => (Return tt, w)
  | S n =>
      if negb (running (fst w)) then (Return tt, w)
      else
        match worker_iteration svc target_language w with
        | (Return _, w') => _worker svc target_language n w'
        | (Raise e, w') => (Raise e, w')
        end
  end.

(** [orig, trans = obj] *)
Definition unpack (obj : rendered) : option (string * string) :=
  match obj with
  | RPair orig trans => Some (orig, trans)
  | RStr (String c1 (String c2 EmptyString)) =>
      Some (String c1 EmptyString, String c2 EmptyString)
  | RStr _ => None
  end.

(** The text appended to the log for a pair, in overlay (compact) mode or
    in full. *)
Definition entry (overlay : bool) (orig trans : string) : string :=
  if overlay then trans
  else "[ORIG] " +++ orig +++ String PyStr.LF "[TRANSLATION] "
       +++ trans +++ String PyStr.LF EmptyString.

(** [isinstance(obj, str) and obj.startswith('__ERROR__')] *)
Definition is_error (obj : rendered) : bool :=
  match obj with
  | RStr s => PyStr.startswith s ERROR_TAG
  | RPair _ _ => false
  end.

(** [f"{obj}"] in the error branch, where [obj] is a [str]. *)
Definition text_of (obj : rendered) : string :=
  match obj with
  | RStr s => s
  | RPair _ _ => EmptyString
  end.

(** The text [_process_queues] appends to the log for one object taken
    off the render queue; [None] when the unpacking raises. *)
Definition render (overlay : bool) (obj : rendered) : option string :=
  if is_error obj then Some ("[Error] " +++ text_of obj)
  else
    match unpack obj with
    | None => None
    | Some (orig, trans) => Some (entry overlay orig trans)
    end.

(** The [while not self.out_queue.empty()] loop. *)
Fixpoint drain (q : list rendered) (a : t) : outcome exn unit * t :=
  match q with
  | [] => (Return tt, set_out_queue a [])
  | obj :: rest =>
      match render (overlay_checkbox (ui a)) obj with
      | None => (Raise ValueError, set_out_queue a rest)
      | Some line => drain rest (log_append a line)
      end
  end.

(** [_process_queues()] *)
Definition _process_queues (a : t) : outcome exn unit * t :=
  drain (out_queue a) a.

(** The line or error text an object on the render queue stands for. *)
Definition origin (obj : rendered) : string :=
  match obj with
  | RStr s => s
  | RPair orig _ => orig
  end.

(** An object as the worker puts it on the render queue: a pair, or a
    [str] that carries the error tag. *)
Definition well_tagged (obj : rendered) : bool :=
  match obj with
  | RStr s => PyStr.startswith s ERROR_TAG
  | RPair _ _ => true
  end.

(** [self.source_input.setText(p)] *)
Definition set_source_input (a : t) (p : string) : t :=
  mk (in_queue a) (out_queue a) (adapter_thread a) (adapter a)
     (translator a) (worker_thread a) (running a) (log a)
     (mk_inputs (adapter_select (ui a)) p (lang_select (ui a))
        (api_key_input (ui a)) (overlay_checkbox (ui a)))
     (start_btn_enabled a) (stop_btn_enabled a) (dialogs a) (threads a).

(** The user edits the window. *)
Definition set_ui (a : t) (i : inputs) : t :=
  mk (in_queue a) (out_queue a) (adapter_thread a) (adapter a)
     (translator a) (worker_thread a) (running a) (log a) i
     (start_btn_enabled a) (stop_btn_enabled a) (dialogs a) (threads a).

(** [on_browse()]; [picked] is the path the file dialog returns, empty when
    it is cancelled.  The information box is recorded with the message
    boxes shown. *)
Definition on_browse (picked : string) (a : t) : t :=
  let adapter := adapter_select (ui a) in
  if String.eqb adapter "file" then
    if PyStr.truthy picked then set_source_input a picked else a
  else if String.eqb adapter "ocr" then
    warning a "OCR BBox"
      "Enter bbox as: left,top,right,bottom (example: 100,600,900,900)"
  else a.

(** What the user can do with the window. *)
Inductive action : Type :=
| Edit (i : inputs)
| Browse (picked : string)
| Start
| Stop.

Definition act (env : environment) (a : t) (x : action) : t :=
  match x with
  | Edit i => set_ui a i
  | Browse picked => on_browse picked a
  | Start => start env a
  | Stop => stop a
  end.

Definition run_actions (env : environment) (xs : list action) (a : t) : t :=
  fold_left (act env) xs a.

(** What the window shows agrees with the session: the Start button is
    enabled exactly when no session runs, the Stop button exactly when one
    does, and a running session has its adapter and its translator. *)
Definition consistent (a : t) : Prop :=
  start_btn_enabled a = negb (running a)
  /\ stop_btn_enabled a = running a
  /\ (running a = true -> adapter a <> None /\ translator a <> None).

(** The log entry [_process_queues] writes for an object that is a pair or
    a tagged [str]. *)
Definition log_entry (overlay : bool) (obj : rendered) : string :=
  match obj with
  | RStr s => "[Error] " +++ s
  | RPair orig trans => entry overlay orig trans
  end.

(** What the worker makes of a line of the ingest queue: a tagged text goes
    through as it is, anything else comes out paired with some text. *)
Definition forwarded (item : string) (obj : rendered) : Prop :=
  if PyStr.startswith item ERROR_TAG then obj = RStr item
  else exists trans, obj = RPair item trans.

End TranslatorApp.

(** * Properties *)

(** ** Strings *)

Lemma rstrip_keeps_head (c : ascii) (r : string) :
  PyStr.isspace c = false ->
  exists r', PyStr.rstrip (String c r) = String c r'.
Proof.
  intros Hc. simpl. destruct (PyStr.rstrip r) as [|c' r'].
  - rewrite Hc. now exists EmptyString.
  - now exists (String c' r').
Qed.

Lemma rstrip_idempotent (s : string) :
  PyStr.rstrip (PyStr.rstrip s) = PyStr.rstrip s.
Proof.
  induction s as [|c r IH]; simpl; [reflexivity|].
  destruct (PyStr.rstrip r) as [|c' r'] eqn:E.
  - destruct (PyStr.isspace c) eqn:Hc; simpl; [reflexivity|].
    now rewrite Hc.
  - change (PyStr.rstrip (String c (String c' r')) = String c (String c' r')).
    simpl in IH |- *.
    destruct (PyStr.rstrip r') as [|c'' r''] eqn:E'.
    + destruct (PyStr.isspace c'); [discriminate IH|].
      now injection IH as <-.
    + now injection IH as <-.
Qed.

Lemma lstrip_head (s : string) :
  PyStr.lstrip s = EmptyString \/
  exists c r, PyStr.lstrip s = String c r /\ PyStr.isspace c = false.
Proof.
  induction s as [|c r IH]; simpl; [now left|].
  destruct (PyStr.isspace c) eqn:Hc; [exact IH|].
  right. now exists c, r.
Qed.

Lemma lstrip_fixed (c : ascii) (r : string) :
  PyStr.isspace c = false -> PyStr.lstrip (String c r) = String c r.
Proof. intros Hc. simpl. now rewrite Hc. Qed.

(** A stripped text is left alone by [strip]. *)
Lemma strip_idempotent (s : string) :
  PyStr.strip (PyStr.strip s) = PyStr.strip s.
Proof.
  unfold PyStr.strip.
  destruct (lstrip_head s) as [E | (c & r & E & Hc)]; rewrite E.
  - reflexivity.
  - destruct (rstrip_keeps_head c r Hc) as [r' E'].
    rewrite E', (lstrip_fixed c r' Hc), <- E'.
    apply rstrip_idempotent.
Qed.

(** A text whose first character is not white space does not strip to
    nothing. *)
Lemma strip_nonspace_head (c : ascii) (r : string) :
  PyStr.isspace c = false -> PyStr.truthy (PyStr.strip (String c r)) = true.
Proof.
  intros Hc. unfold PyStr.strip. rewrite (lstrip_fixed c r Hc).
  destruct (rstrip_keeps_head c r Hc) as [r' ->]. reflexivity.
Qed.


(** ** OrderedDict *)

Section DictFacts.
Context {K V : Type} `{EqDec K}.
Implicit Types (d : OrderedDict.t K V) (k : K) (v : V).

Lemma getitem_setitem_same k v d :
  OrderedDict.getitem k (OrderedDict.setitem k v d) = Some v.
Proof.
  induction d as [|[k' v'] r IH]; simpl.
  - now destruct (eq_dec k k).
  - destruct (eq_dec k k') as [->|Hne]; simpl.
    + now destruct (eq_dec k' k').
    + now destruct (eq_dec k k').
Qed.

Lemma delitem_setitem_same k v d :
  OrderedDict.delitem k (OrderedDict.setitem k v d) = OrderedDict.delitem k d.
Proof.
  induction d as [|[k' v'] r IH]; simpl.
  - now destruct (eq_dec k k).
  - destruct (eq_dec k k') as [->|Hne]; simpl.
    + now destruct (eq_dec k' k').
    + destruct (eq_dec k k'); [contradiction|]. now rewrite IH.
Qed.

Lemma move_to_end_setitem k v d :
  OrderedDict.move_to_end k (OrderedDict.setitem k v d)
  = Some (OrderedDict.delitem k d ++ [(k, v)]).
Proof.
  unfold OrderedDict.move_to_end.
  now rewrite getitem_setitem_same, delitem_setitem_same.
Qed.

Lemma length_delitem_le k d :
  List.length (OrderedDict.delitem k d) <= List.length d.
Proof.
  induction d as [|[k' v'] r IH]; simpl; [lia|].
  destruct (eq_dec k k'); simpl; lia.
Qed.

Lemma getitem_None_iff k d :
  OrderedDict.getitem k d = None <-> ~ In k (OrderedDict.keys d).
Proof.
  induction d as [|[k' v'] r IH]; simpl.
  - tauto.
  - destruct (eq_dec k k') as [->|Hne].
    + split; [discriminate | intros Hn; exfalso; apply Hn; now left].
    + rewrite IH. split; intros Hn; [intros [E|Hin]|]; try tauto.
      now subst.
Qed.

Lemma contains_true_iff k d :
  OrderedDict.contains k d = true <-> In k (OrderedDict.keys d).
Proof.
  unfold OrderedDict.contains.
  destruct (OrderedDict.getitem k d) eqn:E.
  - split; [intros _|reflexivity].
    destruct (in_dec eq_dec k (OrderedDict.keys d)) as [Hin|Hn]; [exact Hin|].
    apply getitem_None_iff in Hn. congruence.
  - apply getitem_None_iff in E. split; [discriminate | tauto].
Qed.

Lemma delitem_absent k d :
  OrderedDict.getitem k d = None -> OrderedDict.delitem k d = d.
Proof.
  induction d as [|[k' v'] r IH]; simpl; [reflexivity|].
  destruct (eq_dec k k'); [discriminate|]. intros E. now rewrite IH.
Qed.

Lemma getitem_app_absent k d d' :
  OrderedDict.getitem k d = None ->
  OrderedDict.getitem k (d ++ d') = OrderedDict.getitem k d'.
Proof.
  induction d as [|[k' v'] r IH]; simpl; [reflexivity|].
  destruct (eq_dec k k'); [discriminate | exact IH].
Qed.

Lemma getitem_app_present k v d d' :
  OrderedDict.getitem k d = Some v ->
  OrderedDict.getitem k (d ++ d') = Some v.
Proof.
  induction d as [|[k' v'] r IH]; simpl; [discriminate|].
  destruct (eq_dec k k'); [trivial | exact IH].
Qed.

Lemma getitem_In k v d :
  NoDup (OrderedDict.keys d) -> In (k, v) d ->
  OrderedDict.getitem k d = Some v.
Proof.
  induction d as [|[k' v'] r IH]; simpl; [tauto|].
  intros Hnd [E|Hin].
  - injection E as -> ->. now destruct (eq_dec k k).
  - inversion Hnd as [|? ? Hnot Hnd']; subst.
    destruct (eq_dec k k') as [->|Hne]; [|now apply IH].
    exfalso. apply Hnot. change (In (fst (k', v)) (map fst r)).
    now apply in_map.
Qed.

End DictFacts.

Section DictOrderFacts.
Context {K V : Type} `{EqDec K}.
Implicit Types (d : OrderedDict.t K V) (k : K) (v : V).

Lemma keys_delitem_incl k x d :
  In k (OrderedDict.keys (OrderedDict.delitem x d)) ->
  In k (OrderedDict.keys d).
Proof.
  induction d as [|[k' v'] r IH]; simpl; [tauto|].
  destruct (eq_dec x k'); simpl; tauto.
Qed.

Lemma keys_delitem_other k x d :
  k <> x -> In k (OrderedDict.keys d) ->
  In k (OrderedDict.keys (OrderedDict.delitem x d)).
Proof.
  intros Hne. induction d as [|[k' v'] r IH]; simpl; [tauto|].
  destruct (eq_dec x k') as [->|Hx]; simpl.
  - intros [E|Hin]; [congruence | exact Hin].
  - tauto.
Qed.

Lemma wf_delitem x d :
  OrderedDict.wf d -> OrderedDict.wf (OrderedDict.delitem x d).
Proof.
  unfold OrderedDict.wf.
  induction d as [|[k' v'] r IH]; simpl; [trivial|].
  intros Hnd. inversion Hnd as [|? ? Hnot Hnd']; subst.
  destruct (eq_dec x k'); simpl; [exact Hnd'|].
  constructor; [|now apply IH].
  intros Hin. apply Hnot. eapply keys_delitem_incl, Hin.
Qed.

Lemma delitem_removes x d :
  OrderedDict.wf d -> ~ In x (OrderedDict.keys (OrderedDict.delitem x d)).
Proof.
  unfold OrderedDict.wf.
  induction d as [|[k' v'] r IH]; simpl; [tauto|].
  intros Hnd. inversion Hnd as [|? ? Hnot Hnd']; subst.
  destruct (eq_dec x k') as [->|Hx]; simpl; [exact Hnot|].
  intros [E|Hin]; [congruence | now apply IH].
Qed.

(** Moving a key to the end keeps the dictionary well formed. *)
Lemma wf_touch x v d :
  OrderedDict.wf d -> OrderedDict.wf (OrderedDict.delitem x d ++ [(x, v)]).
Proof.
  intros Hwf. unfold OrderedDict.wf, OrderedDict.keys.
  rewrite map_app. simpl.
  apply NoDup_app.
  - now apply wf_delitem.
  - repeat constructor. simpl. tauto.
  - intros a Ha [E|[]]. subst a. now apply (delitem_removes x d).
Qed.

Lemma wf_tl d : OrderedDict.wf d -> OrderedDict.wf (tl d).
Proof.
  unfold OrderedDict.wf. destruct d as [|kv r]; simpl; [trivial|].
  intros Hnd. now inversion Hnd.
Qed.

Lemma delitem_app x d1 d2 :
  OrderedDict.delitem x (d1 ++ d2)
  = if OrderedDict.contains x d1 then OrderedDict.delitem x d1 ++ d2
    else d1 ++ OrderedDict.delitem x d2.
Proof.
  unfold OrderedDict.contains.
  induction d1 as [|[k' v'] r IH]; simpl; [reflexivity|].
  destruct (eq_dec x k'); [reflexivity|].
  rewrite IH. now destruct (OrderedDict.getitem x r).
Qed.

(** Touching a key other than [j] leaves [j] before [k]. *)
Lemma precedes_touch j k x v d :
  x <> j -> OrderedDict.precedes j k d ->
  OrderedDict.precedes j k (OrderedDict.delitem x d ++ [(x, v)]).
Proof.
  intros Hx (d1 & d2 & -> & Hj & Hk).
  rewrite delitem_app.
  destruct (OrderedDict.contains x d1).
  - exists (OrderedDict.delitem x d1), (d2 ++ [(x, v)]).
    rewrite app_assoc. split; [reflexivity|]. split.
    + apply keys_delitem_other; [congruence | exact Hj].
    + unfold OrderedDict.keys. rewrite map_app, in_app_iff. now left.
  - exists d1, (OrderedDict.delitem x d2 ++ [(x, v)]).
    rewrite app_assoc. split; [reflexivity|]. split; [exact Hj|].
    unfold OrderedDict.keys. rewrite map_app, in_app_iff. simpl.
    destruct (eq_dec k x) as [->|Hkx]; [right; now left|].
    left. now apply keys_delitem_other.
Qed.

(** Dropping the oldest item leaves [j] before [k] as long as [j] stays. *)
Lemma precedes_tl j k d :
  OrderedDict.wf d -> OrderedDict.precedes j k d ->
  In j (OrderedDict.keys (tl d)) -> OrderedDict.precedes j k (tl d).
Proof.
  intros Hwf (d1 & d2 & -> & Hj & Hk) Hin.
  destruct d1 as [|[k' v'] d1']; [destruct Hj|].
  simpl in *. exists d1', d2. split; [reflexivity|]. split; [|exact Hk].
  destruct Hj as [->|Hj]; [|exact Hj].
  inversion Hwf as [|? ? Hnot _]; subst. contradiction.
Qed.

Lemma precedes_In j k d :
  OrderedDict.precedes j k d -> In k (OrderedDict.keys d).
Proof.
  intros (d1 & d2 & -> & _ & Hk).
  unfold OrderedDict.keys. rewrite map_app, in_app_iff. now right.
Qed.

Lemma getitem_delitem_same x d :
  OrderedDict.wf d -> OrderedDict.getitem x (OrderedDict.delitem x d) = None.
Proof. intros Hwf. apply getitem_None_iff. now apply delitem_removes. Qed.

End DictOrderFacts.

(** ** SimpleLRU *)

Section LRUFacts.
Context {K V : Type} `{EqDec K}.
Implicit Types (s : SimpleLRU.t K V) (k : K) (v : V).

Lemma set_cache_same s : SimpleLRU.set_cache s (SimpleLRU.cache s) = s.
Proof. now destruct s. Qed.

(** [put] never raises; it moves the key to the end with its new value
    and then drops the oldest item if the cache has grown too long. *)
Lemma put_spec k v s :
  SimpleLRU.put k v s
  = (Return tt,
     SimpleLRU.set_cache s
       (let d := OrderedDict.delitem k (SimpleLRU.cache s) ++ [(k, v)] in
        if SimpleLRU.capacity s <? List.length d then tl d else d)).
Proof.
  unfold SimpleLRU.put. rewrite move_to_end_setitem.
  unfold OrderedDict.len. cbv zeta.
  destruct (SimpleLRU.capacity s <? _); [|reflexivity].
  now destruct (OrderedDict.delitem k (SimpleLRU.cache s)).
Qed.

(** [get] never raises on a well-formed cache; a hit moves the key to the
    end. *)
Lemma get_spec k s :
  OrderedDict.wf (SimpleLRU.cache s) ->
  SimpleLRU.get k s
  = match OrderedDict.getitem k (SimpleLRU.cache s) with
    | Some v =>
        (Return (Some v),
         SimpleLRU.set_cache s
           (OrderedDict.delitem k (SimpleLRU.cache s) ++ [(k, v)]))
    | None => (Return None, s)
    end.
Proof.
  intros Hwf. unfold SimpleLRU.get, OrderedDict.contains, OrderedDict.move_to_end.
  destruct (OrderedDict.getitem k (SimpleLRU.cache s)) as [v|] eqn:E;
    [|reflexivity].
  rewrite getitem_app_absent by now apply getitem_delitem_same.
  simpl. now destruct (eq_dec k k).
Qed.

Lemma put_returns k v s : fst (SimpleLRU.put k v s) = Return tt.
Proof. now rewrite put_spec. Qed.

Lemma put_capacity k v s :
  SimpleLRU.capacity (snd (SimpleLRU.put k v s)) = SimpleLRU.capacity s.
Proof. now rewrite put_spec. Qed.

Lemma wf_put k v s :
  OrderedDict.wf (SimpleLRU.cache s) ->
  OrderedDict.wf (SimpleLRU.cache (snd (SimpleLRU.put k v s))).
Proof.
  intros Hwf. rewrite put_spec. simpl.
  destruct (_ <? _); [apply wf_tl|]; now apply wf_touch.
Qed.

Lemma wf_get k s :
  OrderedDict.wf (SimpleLRU.cache s) ->
  OrderedDict.wf (SimpleLRU.cache (snd (SimpleLRU.get k s))).
Proof.
  intros Hwf. rewrite get_spec by exact Hwf.
  destruct (OrderedDict.getitem k (SimpleLRU.cache s)); simpl;
    [now apply wf_touch | exact Hwf].
Qed.

Lemma put_size k v s :
  OrderedDict.len (SimpleLRU.cache s) <= SimpleLRU.capacity s ->
  OrderedDict.len (SimpleLRU.cache (snd (SimpleLRU.put k v s)))
  <= SimpleLRU.capacity s.
Proof.
  unfold OrderedDict.len. intros Hle. rewrite put_spec. simpl.
  pose proof (length_delitem_le k (SimpleLRU.cache s)) as Hd.
  destruct (_ <? _) eqn:E.
  - destruct (OrderedDict.delitem k (SimpleLRU.cache s)) as [|kv r]; simpl in *.
    + lia.
    + rewrite length_app. simpl. lia.
  - apply Nat.ltb_ge in E. exact E.
Qed.

Lemma put_all_size (kvs : list (K * V)) : forall s,
  OrderedDict.len (SimpleLRU.cache s) <= SimpleLRU.capacity s ->
  exists s', SimpleLRU.put_all kvs s = (Return tt, s')
             /\ SimpleLRU.capacity s' = SimpleLRU.capacity s
             /\ OrderedDict.len (SimpleLRU.cache s') <= SimpleLRU.capacity s'.
Proof.
  induction kvs as [|[k v] r IH]; intros s Hle; simpl.
  - now exists s.
  - pose proof (put_size k v s Hle) as Hle'.
    pose proof (put_returns k v s) as Hr.
    pose proof (put_capacity k v s) as Hc.
    destruct (SimpleLRU.put k v s) as [o s1]. simpl in Hle', Hr, Hc. subst o.
    rewrite <- Hc in Hle'.
    destruct (IH s1 Hle') as (s' & E & Hc' & Hl).
    exists s'. split; [exact E|]. split; [congruence | exact Hl].
Qed.

(** Putting a new key into a full cache. *)
Lemma put_full k v s :
  OrderedDict.len (SimpleLRU.cache s) = SimpleLRU.capacity s ->
  OrderedDict.contains k (SimpleLRU.cache s) = false ->
  SimpleLRU.put k v s
  = (Return tt, SimpleLRU.set_cache s (tl (SimpleLRU.cache s ++ [(k, v)]))).
Proof.
  unfold OrderedDict.len, OrderedDict.contains. intros Hlen Hk.
  rewrite put_spec. cbv zeta.
  rewrite delitem_absent
    by (destruct (OrderedDict.getitem k (SimpleLRU.cache s)); congruence).
  rewrite length_app. simpl.
  replace (SimpleLRU.capacity s <? _) with true; [reflexivity|].
  symmetry. apply Nat.ltb_lt. lia.
Qed.

(** The items kept after one more insertion, then the rest, are the
    items kept after all of them. *)
Lemma keep_newest_step (cap : nat) (d r : list (K * V)) (kv : K * V) :
  List.length d <= cap ->
  let d1 := if cap <? List.length (d ++ [kv]) then tl (d ++ [kv])
            else d ++ [kv] in
  List.length d1 <= cap
  /\ skipn (List.length (d1 ++ r) - cap) (d1 ++ r)
     = skipn (List.length (d ++ kv :: r) - cap) (d ++ kv :: r).
Proof.
  intros Hle d1. subst d1. rewrite length_app. simpl List.length.
  destruct (cap <? _) eqn:E.
  - apply Nat.ltb_lt in E.
    assert (Hlen : List.length d = cap) by lia.
    destruct d as [|kv0 d0]; simpl tl.
    + simpl in Hlen. subst cap. simpl. split; [lia|].
      now rewrite Nat.sub_0_r.
    + simpl in Hlen. split; [rewrite length_app; simpl; lia|].
      rewrite <- app_assoc. simpl app.
      cbn [List.length]. rewrite length_app. cbn [List.length].
      replace (List.length d0 + S (List.length r) - cap)
        with (List.length r) by lia.
      replace (S (List.length d0 + S (List.length r)) - cap)
        with (S (List.length r)) by lia.
      reflexivity.
  - apply Nat.ltb_ge in E. split; [rewrite length_app; simpl; lia|].
    now rewrite <- app_assoc.
Qed.

(** A run of [put]s of fresh, distinct keys keeps the newest items that
    fit. *)
Lemma put_all_fresh (kvs : list (K * V)) : forall s,
  NoDup (map fst kvs) ->
  (forall k, In k (map fst kvs) -> ~ In k (OrderedDict.keys (SimpleLRU.cache s))) ->
  OrderedDict.len (SimpleLRU.cache s) <= SimpleLRU.capacity s ->
  SimpleLRU.put_all kvs s
  = (Return tt,
     SimpleLRU.set_cache s
       (skipn (List.length (SimpleLRU.cache s ++ kvs) - SimpleLRU.capacity s)
          (SimpleLRU.cache s ++ kvs))).
Proof.
  unfold OrderedDict.len.
  induction kvs as [|[k v] r IH]; intros s Hnd Hfresh Hle.
  - simpl. rewrite app_nil_r.
    replace (_ - _) with 0 by lia. simpl. now rewrite set_cache_same.
  - inversion Hnd as [|? ? Hk Hnd']; subst.
    assert (Habs : OrderedDict.getitem k (SimpleLRU.cache s) = None).
    { apply getitem_None_iff, Hfresh. now left. }
    cbn [SimpleLRU.put_all]. rewrite put_spec. cbv zeta.
    rewrite (delitem_absent _ _ Habs).
    destruct (keep_newest_step (SimpleLRU.capacity s) (SimpleLRU.cache s)
                r (k, v) Hle) as [Hle1 Hskip].
    cbv zeta in Hle1, Hskip.
    set (d1 := if SimpleLRU.capacity s <? _ then _ else _) in *.
    rewrite IH.
    + unfold SimpleLRU.set_cache. simpl. now rewrite Hskip.
    + exact Hnd'.
    + intros k' Hk' Hin. simpl in Hin.
      assert (Hin' : In k' (OrderedDict.keys (SimpleLRU.cache s ++ [(k, v)]))).
      { subst d1. destruct (_ <? _); [|exact Hin].
        destruct (SimpleLRU.cache s ++ [(k, v)]); simpl in *; tauto. }
      unfold OrderedDict.keys in Hin'. rewrite map_app, in_app_iff in Hin'.
      destruct Hin' as [Hin'|[E|[]]].
      * apply (Hfresh k'); [now right | exact Hin'].
      * simpl in E. subst k'. contradiction.
    + exact Hle1.
Qed.

End LRUFacts.

Section LRUClaims.
Context {K V : Type} `{EqDec K}.
Implicit Types (s : SimpleLRU.t K V) (k : K) (v : V).

(** One call that does not name [j] keeps the cache well formed and keeps
    [j], while it stays, before [k]. *)
Lemma run_call_keeps_order j k (c : SimpleLRU.call K V) s :
  SimpleLRU.call_key c <> j ->
  OrderedDict.wf (SimpleLRU.cache s) ->
  (In j (OrderedDict.keys (SimpleLRU.cache s)) ->
   OrderedDict.precedes j k (SimpleLRU.cache s)) ->
  exists s', SimpleLRU.run_call c s = (Return tt, s')
    /\ OrderedDict.wf (SimpleLRU.cache s')
    /\ (In j (OrderedDict.keys (SimpleLRU.cache s')) ->
        OrderedDict.precedes j k (SimpleLRU.cache s')).
Proof.
  intros Hc Hwf Hord. destruct c as [x|x v]; simpl in Hc |- *.
  - pose proof (wf_get x s Hwf) as Hwf'.
    rewrite (get_spec x s Hwf) in *.
    destruct (OrderedDict.getitem x (SimpleLRU.cache s)) as [v|] eqn:E.
    + eexists. split; [reflexivity|]. split; [exact Hwf'|].
      simpl. intros Hin. apply precedes_touch; [exact Hc|]. apply Hord.
      unfold OrderedDict.keys in Hin. rewrite map_app, in_app_iff in Hin.
      destruct Hin as [Hin|[E'|[]]]; [|simpl in E'; congruence].
      eapply keys_delitem_incl, Hin.
    + exists s. now repeat split.
  - pose proof (wf_put x v s Hwf) as Hwf'.
    rewrite put_spec in *. eexists. split; [reflexivity|].
    split; [exact Hwf'|]. simpl in Hwf' |- *.
    assert (Htouch : In j (OrderedDict.keys
                            (OrderedDict.delitem x (SimpleLRU.cache s) ++ [(x, v)])) ->
                     OrderedDict.precedes j k
                       (OrderedDict.delitem x (SimpleLRU.cache s) ++ [(x, v)])).
    { intros Hin. apply precedes_touch; [exact Hc|]. apply Hord.
      unfold OrderedDict.keys in Hin. rewrite map_app, in_app_iff in Hin.
      destruct Hin as [Hin|[E'|[]]]; [|simpl in E'; congruence].
      eapply keys_delitem_incl, Hin. }
    destruct (_ <? _); [|exact Htouch].
    intros Hin. apply precedes_tl; [now apply wf_touch | | exact Hin].
    apply Htouch.
    destruct (OrderedDict.delitem x (SimpleLRU.cache s) ++ [(x, v)]);
      simpl in *; tauto.
Qed.

Lemma run_calls_keep_order j k (cs : list (SimpleLRU.call K V)) : forall s,
  (forall c, In c cs -> SimpleLRU.call_key c <> j) ->
  OrderedDict.wf (SimpleLRU.cache s) ->
  (In j (OrderedDict.keys (SimpleLRU.cache s)) ->
   OrderedDict.precedes j k (SimpleLRU.cache s)) ->
  exists s', SimpleLRU.run_calls cs s = (Return tt, s')
    /\ (In j (OrderedDict.keys (SimpleLRU.cache s')) ->
        OrderedDict.precedes j k (SimpleLRU.cache s')).
Proof.
  induction cs as [|c r IH]; intros s Hcs Hwf Hord; simpl.
  - now exists s.
  - destruct (run_call_keeps_order j k c s) as (s1 & E & Hwf1 & Hord1);
      [apply Hcs; now left | exact Hwf | exact Hord |].
    rewrite E.
    apply IH; [|exact Hwf1 | exact Hord1].
    intros c' Hin. apply Hcs. now right.
Qed.

End LRUClaims.

Example lru_read_then_insert :
  SimpleLRU.cache
    (snd (SimpleLRU.run_calls [SimpleLRU.Get "a"; SimpleLRU.Put "c" "3"]
            (SimpleLRU.mk 2 [("a", "1"); ("b", "2")])))
  = [("a", "1"); ("c", "3")].
Proof. reflexivity. Qed.

(** ** Translator: the cache key *)

Lemma cache_key_nil_cons (c : ascii) (r t1 t2 : string) :
  Ascii.eqb c ":" = false ->
  Translator.cache_key EmptyString t1 <> Translator.cache_key (String c r) t2.
Proof.
  unfold Translator.cache_key. simpl. intros Hc E.
  injection E as E _. subst c. discriminate Hc.
Qed.

(** C5 (as amended). For target languages that contain no colon, two calls
    compute the same cache key exactly when the languages are equal and the
    texts are equal. *)
Theorem cache_key_injective (lang1 text1 lang2 text2 : string) :
  PyStr.lacks ":" lang1 = true ->
  PyStr.lacks ":" lang2 = true ->
  (Translator.cache_key lang1 text1 = Translator.cache_key lang2 text2
   <-> lang1 = lang2 /\ text1 = text2).
Proof.
  intros H1 H2. split; [|now intros [-> ->]].
  revert lang2 H1 H2.
  induction lang1 as [|c1 r1 IH]; intros [|c2 r2] H1 H2 E.
  - unfold Translator.cache_key in E. simpl in E. now injection E as ->.
  - simpl in H2. apply andb_prop in H2 as [Hc _].
    apply negb_true_iff in Hc.
    exfalso. exact (cache_key_nil_cons c2 r2 text1 text2 Hc E).
  - simpl in H1. apply andb_prop in H1 as [Hc _].
    apply negb_true_iff in Hc.
    exfalso. exact (cache_key_nil_cons c1 r1 text2 text1 Hc (eq_sym E)).
  - simpl in H1, H2.
    apply andb_prop in H1 as [_ H1]. apply andb_prop in H2 as [_ H2].
    unfold Translator.cache_key in E. simpl in E. injection E as -> E.
    destruct (IH r2 H1 H2 E) as [-> ->]. now split.
Qed.

Lemma cache_key_injective_witness :
  Translator.cache_key "Spanish" "gg ez" = Translator.cache_key "Spanish" "gg ez"
  <-> "Spanish" = "Spanish" /\ "gg ez" = "gg ez".
Proof.
  apply (cache_key_injective "Spanish" "gg ez" "Spanish" "gg ez");
    reflexivity.
Defined.

(** Every language the window offers is free of colons. *)
Lemma languages_lack_colon :
  forallb (PyStr.lacks ":") TranslatorApp.LANGUAGES = true.
Proof. reflexivity. Qed.

(** C5 (as stated) fails: a colon pair inside the language or the text can
    be read on either side of the separator. *)
Lemma cache_key_collision :
  ~ (forall lang1 text1 lang2 text2 : string,
        Translator.cache_key lang1 text1 = Translator.cache_key lang2 text2
        <-> lang1 = lang2 /\ text1 = text2).
Proof.
  intros Hall.
  destruct (proj1 (Hall "a::b" "c" "a" "b::c") eq_refl) as [E _].
  discriminate E.
Qed.

(** ** Translator: translate and its cache *)

Section TouchFacts.
Context {K V : Type} `{EqDec K}.
Implicit Types (d : OrderedDict.t K V) (k x : K) (v : V).

Lemma getitem_delitem_other k x d :
  k <> x ->
  OrderedDict.getitem k (OrderedDict.delitem x d) = OrderedDict.getitem k d.
Proof.
  intros Hne. induction d as [|[k' v'] r IH]; simpl; [reflexivity|].
  destruct (eq_dec x k') as [->|Hx]; simpl.
  - now destruct (eq_dec k k').
  - now destruct (eq_dec k k').
Qed.

(** Moving a key to the end changes no entry. *)
Lemma getitem_touch x v d :
  OrderedDict.wf d -> OrderedDict.getitem x d = Some v ->
  forall k, OrderedDict.getitem k (OrderedDict.delitem x d ++ [(x, v)])
            = OrderedDict.getitem k d.
Proof.
  intros Hwf Hx k. destruct (eq_dec k x) as [->|Hne].
  - rewrite getitem_app_absent by now apply getitem_delitem_same.
    simpl. destruct (eq_dec x x); congruence.
  - destruct (OrderedDict.getitem k (OrderedDict.delitem x d)) as [w|] eqn:E.
    + rewrite (getitem_app_present _ _ _ _ E).
      now rewrite <- E, getitem_delitem_other.
    + rewrite (getitem_app_absent _ _ _ E). simpl.
      destruct (eq_dec k x); [contradiction|].
      now rewrite <- E, getitem_delitem_other.
Qed.

(** What has just been put is there, in a cache that holds at least one
    item. *)
Lemma getitem_put_same k v (s : SimpleLRU.t K V) :
  1 <= SimpleLRU.capacity s ->
  OrderedDict.wf (SimpleLRU.cache s) ->
  OrderedDict.getitem k (SimpleLRU.cache (snd (SimpleLRU.put k v s))) = Some v.
Proof.
  intros Hcap Hwf. rewrite put_spec. simpl.
  pose proof (getitem_delitem_same k _ Hwf) as Hgone.
  destruct (OrderedDict.delitem k (SimpleLRU.cache s)) as [|[k0 v0] d0] eqn:E.
  - simpl. replace (SimpleLRU.capacity s <? 1) with false
      by (symmetry; apply Nat.ltb_ge; lia).
    simpl. now destruct (eq_dec k k).
  - simpl in Hgone. destruct (eq_dec k k0) as [|Hne]; [discriminate|].
    destruct (_ <? _); simpl.
    + rewrite (getitem_app_absent _ _ _ Hgone). simpl.
      now destruct (eq_dec k k).
    + destruct (eq_dec k k0); [contradiction|].
      rewrite (getitem_app_absent _ _ _ Hgone). simpl.
      now destruct (eq_dec k k).
Qed.

End TouchFacts.

Section TranslateFacts.
Variable svc : Translator.service.
Implicit Types (tr : Translator.t) (calls : list Translator.request).

(** A cached, non-empty value is returned without a request. *)
Lemma translate_hit text lang tr calls v :
  OrderedDict.wf (Translator.entries tr) ->
  OrderedDict.getitem (Translator.cache_key lang text) (Translator.entries tr) = Some v ->
  PyStr.truthy v = true ->
  Translator.translate svc text lang (tr, calls)
  = (Return v,
     (Translator.set_cache tr
        (SimpleLRU.set_cache (Translator.cache tr)
           (OrderedDict.delitem (Translator.cache_key lang text) (Translator.entries tr)
            ++ [(Translator.cache_key lang text, v)])),
      calls)).
Proof.
  unfold Translator.entries. intros Hwf Hget Hv. unfold Translator.translate.
  rewrite (get_spec _ _ Hwf), Hget, Hv. reflexivity.
Qed.

(** Otherwise the [try] block runs, on the cache as [get] left it. *)
Lemma translate_miss text lang tr calls :
  OrderedDict.wf (Translator.entries tr) ->
  PyStr.falsy
    (OrderedDict.getitem (Translator.cache_key lang text) (Translator.entries tr)) = true ->
  Translator.translate svc text lang (tr, calls)
  = (let (r, st') :=
       Translator.fetch svc text lang (Translator.cache_key lang text)
         (Translator.set_cache tr
            (snd (SimpleLRU.get (Translator.cache_key lang text)
                    (Translator.cache tr))))
         calls
     in (Return r, st')).
Proof.
  unfold Translator.entries. intros Hwf Hmiss. unfold Translator.translate.
  rewrite (get_spec _ _ Hwf).
  destruct (OrderedDict.getitem _ _) as [v|]; simpl in *.
  - destruct (PyStr.truthy v); [discriminate | reflexivity].
  - reflexivity.
Qed.

(** The entries of the cache after the [get] that opens [translate]. *)
Lemma entries_after_get k tr :
  OrderedDict.wf (Translator.entries tr) ->
  forall k', OrderedDict.getitem k'
               (SimpleLRU.cache (snd (SimpleLRU.get k (Translator.cache tr))))
             = OrderedDict.getitem k' (Translator.entries tr).
Proof.
  unfold Translator.entries. intros Hwf k'. rewrite (get_spec _ _ Hwf).
  destruct (OrderedDict.getitem k _) as [v|] eqn:E; simpl.
  - now apply getitem_touch.
  - reflexivity.
Qed.

(** A miss whose request fails returns the error text and leaves the cache
    as [get] left it. *)
Lemma translate_miss_fails text lang tr calls e :
  OrderedDict.wf (Translator.entries tr) ->
  PyStr.falsy
    (OrderedDict.getitem (Translator.cache_key lang text) (Translator.entries tr)) = true ->
  svc calls (Translator.request_for tr text lang) = Translator.Fails e ->
  Translator.translate svc text lang (tr, calls)
  = (Return (Translator.error_text e),
     (Translator.set_cache tr
        (snd (SimpleLRU.get (Translator.cache_key lang text)
                (Translator.cache tr))),
      calls ++ [Translator.request_for tr text lang])).
Proof.
  intros Hwf Hmiss Hsvc.
  rewrite (translate_miss text lang tr calls Hwf Hmiss).
  unfold Translator.fetch.
  change (Translator.request_for (Translator.set_cache tr _) text lang)
    with (Translator.request_for tr text lang).
  now rewrite Hsvc.
Qed.

(** On a well-formed cache [translate] returns, and leaves the cache well
    formed. *)
Lemma translate_returns text lang tr calls :
  OrderedDict.wf (Translator.entries tr) ->
  exists r tr' calls',
    Translator.translate svc text lang (tr, calls) = (Return r, (tr', calls'))
    /\ OrderedDict.wf (Translator.entries tr').
Proof.
  unfold Translator.entries. intros Hwf.
  pose proof (wf_get (Translator.cache_key lang text) _ Hwf) as Hwf0.
  unfold Translator.translate. rewrite (get_spec _ _ Hwf) in *.
  assert (Hfetch : forall c, OrderedDict.wf (SimpleLRU.cache c) ->
            exists r tr' calls',
              (let (r, st') :=
                 Translator.fetch svc text lang (Translator.cache_key lang text)
                   (Translator.set_cache tr c) calls
               in (@Return (SimpleLRU.exn string) string r, st'))
              = (Return r, (tr', calls'))
              /\ OrderedDict.wf (SimpleLRU.cache (Translator.cache tr'))).
  { intros c Hc. unfold Translator.fetch.
    destruct (svc calls _) as [content|e].
    - pose proof (wf_put (Translator.cache_key lang text)
                    (PyStr.strip content) c Hc) as Hc'.
      simpl Translator.cache.
      destruct (SimpleLRU.put _ _ c) as [[u|e'] c']; simpl in Hc';
        eexists; eexists; eexists; (split; [reflexivity | exact Hc']).
    - eexists; eexists; eexists. split; [reflexivity | exact Hc]. }
  destruct (OrderedDict.getitem _ _) as [v|] eqn:E; simpl in Hwf0 |- *.
  - destruct (PyStr.truthy v).
    + eexists; eexists; eexists. split; [reflexivity | exact Hwf0].
    + now apply Hfetch.
  - now apply Hfetch.
Qed.

End TranslateFacts.

Section TranslateClaims.
Variable svc : Translator.service.
Implicit Types (tr : Translator.t) (calls : list Translator.request).

Lemma get_capacity {K V : Type} `{EqDec K} (k : K) (s : SimpleLRU.t K V) :
  SimpleLRU.capacity (snd (SimpleLRU.get k s)) = SimpleLRU.capacity s.
Proof.
  unfold SimpleLRU.get.
  destruct (OrderedDict.contains k (SimpleLRU.cache s)); [|reflexivity].
  destruct (OrderedDict.move_to_end k (SimpleLRU.cache s)); [|reflexivity].
  now destruct (OrderedDict.getitem k _).
Qed.

Lemma translator_set_cache_same tr :
  Translator.set_cache tr (Translator.cache tr) = tr.
Proof. now destruct tr. Qed.

(** The [try] block appends its request to those made, whatever comes
    back. *)
Lemma fetch_makes_one_request text lang key tr calls :
  snd (snd (Translator.fetch svc text lang key tr calls))
  = calls ++ [Translator.request_for tr text lang].
Proof.
  unfold Translator.fetch.
  destruct (svc calls _); [|reflexivity].
  now destruct (SimpleLRU.put key _ _) as [[u|e'] c].
Qed.

(** C2 (as amended). When the first of two calls of [translate] with the
    same arguments yields a non-empty translation, out of the cache or
    out of an answered request, the second call makes no request and
    returns that same value; the two calls make one request at most. *)
Theorem translate_twice_one_request text lang tr calls :
  OrderedDict.wf (Translator.entries tr) ->
  1 <= SimpleLRU.capacity (Translator.cache tr) ->
  (forall v,
      OrderedDict.getitem (Translator.cache_key lang text) (Translator.entries tr)
      = Some v ->
      PyStr.truthy v = true ->
      exists tr1 tr2,
        Translator.translate svc text lang (tr, calls)
        = (Return v, (tr1, calls))
        /\ Translator.translate svc text lang (tr1, calls)
           = (Return v, (tr2, calls)))
  /\ (forall content,
      PyStr.falsy
        (OrderedDict.getitem (Translator.cache_key lang text)
           (Translator.entries tr)) = true ->
      svc calls (Translator.request_for tr text lang)
      = Translator.Content content ->
      PyStr.truthy (PyStr.strip content) = true ->
      exists tr1 tr2,
        Translator.translate svc text lang (tr, calls)
        = (Return (PyStr.strip content),
           (tr1, calls ++ [Translator.request_for tr text lang]))
        /\ Translator.translate svc text lang
             (tr1, calls ++ [Translator.request_for tr text lang])
           = (Return (PyStr.strip content),
              (tr2, calls ++ [Translator.request_for tr text lang]))).
Proof.
  intros Hwf Hcap. split.
  - intros v Hget Hv.
    rewrite (translate_hit svc text lang tr calls v Hwf Hget Hv).
    eexists. eexists. split; [reflexivity|].
    apply translate_hit; [| |exact Hv]; unfold Translator.entries in *; simpl.
    + now apply wf_touch.
    + rewrite getitem_app_absent by now apply getitem_delitem_same.
      simpl. now destruct (eq_dec _ _).
  - intros content Hmiss Hsvc Hv.
    rewrite (translate_miss svc text lang tr calls Hwf Hmiss).
    set (key := Translator.cache_key lang text) in *.
    set (c0 := snd (SimpleLRU.get key (Translator.cache tr))).
    assert (Hwf0 : OrderedDict.wf (SimpleLRU.cache c0))
      by (apply wf_get; exact Hwf).
    assert (Hcap0 : 1 <= SimpleLRU.capacity c0)
      by (unfold c0; now rewrite get_capacity).
    unfold Translator.fetch.
    change (Translator.request_for (Translator.set_cache tr c0) text lang)
      with (Translator.request_for tr text lang).
    rewrite Hsvc.
    change (Translator.cache (Translator.set_cache tr c0)) with c0.
    pose proof (put_returns key (PyStr.strip content) c0) as Hret.
    pose proof (wf_put key (PyStr.strip content) c0 Hwf0) as Hwf1.
    pose proof (getitem_put_same key (PyStr.strip content) c0 Hcap0 Hwf0)
      as Hget1.
    destruct (SimpleLRU.put key (PyStr.strip content) c0) as [o c1].
    simpl in Hret, Hwf1, Hget1. subst o.
    eexists. eexists. split; [reflexivity|].
    apply translate_hit; [exact Hwf1 | exact Hget1 | exact Hv].
Qed.

(** C10 (as amended). When the request fails, [translate] returns the
    error text and stores nothing: every key maps to what it mapped to
    before, the translator is untouched if the key was absent, and the
    next call with the same arguments makes the request again. *)
Theorem failed_translate_not_cached text lang tr calls e :
  OrderedDict.wf (Translator.entries tr) ->
  PyStr.falsy
    (OrderedDict.getitem (Translator.cache_key lang text)
       (Translator.entries tr)) = true ->
  svc calls (Translator.request_for tr text lang) = Translator.Fails e ->
  exists tr1,
    Translator.translate svc text lang (tr, calls)
    = (Return (Translator.error_text e),
       (tr1, calls ++ [Translator.request_for tr text lang]))
    /\ (forall k, OrderedDict.getitem k (Translator.entries tr1)
                  = OrderedDict.getitem k (Translator.entries tr))
    /\ (OrderedDict.getitem (Translator.cache_key lang text)
          (Translator.entries tr) = None -> tr1 = tr)
    /\ exists r2 tr2,
        Translator.translate svc text lang
          (tr1, calls ++ [Translator.request_for tr text lang])
        = (Return r2,
           (tr2, (calls ++ [Translator.request_for tr text lang])
                 ++ [Translator.request_for tr text lang])).
Proof.
  intros Hwf Hmiss Hsvc.
  set (key := Translator.cache_key lang text) in *.
  set (tr1 := Translator.set_cache tr
                (snd (SimpleLRU.get key (Translator.cache tr)))).
  assert (Hent : forall k, OrderedDict.getitem k (Translator.entries tr1)
                           = OrderedDict.getitem k (Translator.entries tr))
    by (intros k; apply entries_after_get; exact Hwf).
  assert (Hwf1 : OrderedDict.wf (Translator.entries tr1))
    by (apply wf_get; exact Hwf).
  exists tr1. split; [|split; [exact Hent|split]].
  - now rewrite (translate_miss_fails svc text lang tr calls e Hwf Hmiss Hsvc).
  - intros Habs. unfold tr1, Translator.entries in *.
    rewrite (get_spec _ _ Hwf), Habs. simpl.
    apply translator_set_cache_same.
  - assert (Hmiss1 : PyStr.falsy
              (OrderedDict.getitem key (Translator.entries tr1)) = true)
      by (rewrite Hent; exact Hmiss).
    rewrite (translate_miss svc text lang tr1 _ Hwf1 Hmiss1). fold key.
    pose proof (fetch_makes_one_request text lang key
                  (Translator.set_cache tr1
                     (snd (SimpleLRU.get key (Translator.cache tr1))))
                  (calls ++ [Translator.request_for tr text lang])) as Hreq.
    destruct (Translator.fetch svc text lang key _ _) as [r2 [tr2 calls2]].
    simpl in Hreq. subst calls2. now exists r2, tr2.
Qed.

End TranslateClaims.

(** A translator that already holds the translation serves it twice without
    a request; a new translator whose service answers with padded text makes
    the request once, stores the stripped answer, and serves the second call
    from the cache. *)
Lemma translate_twice_one_request_witness :
  let svc : Translator.service := fun _ _ => Translator.Content " buena partida " in
  let tr := Translator.init None (Some "sk-test") "gpt-4.1-mini" None in
  let warm :=
    Translator.set_cache tr
      (SimpleLRU.mk 1500 [("Spanish::gg ez", "buena partida")]) in
  (exists tr1 tr2,
      Translator.translate svc "gg ez" "Spanish" (warm, [])
      = (Return "buena partida", (tr1, []))
      /\ Translator.translate svc "gg ez" "Spanish" (tr1, [])
         = (Return "buena partida", (tr2, [])))
  /\ exists tr1 tr2,
      Translator.translate svc "gg ez" "Spanish" (tr, [])
      = (Return (PyStr.strip " buena partida "),
         (tr1, [] ++ [Translator.request_for tr "gg ez" "Spanish"]))
      /\ Translator.translate svc "gg ez" "Spanish"
           (tr1, [] ++ [Translator.request_for tr "gg ez" "Spanish"])
         = (Return (PyStr.strip " buena partida "),
            (tr2, [] ++ [Translator.request_for tr "gg ez" "Spanish"])).
Proof.
  intros svc tr warm. split.
  - assert (Hwf : OrderedDict.wf (Translator.entries warm))
      by (repeat constructor; simpl; tauto).
    assert (Hcap : 1 <= SimpleLRU.capacity (Translator.cache warm))
      by (simpl; lia).
    apply (proj1 (translate_twice_one_request svc "gg ez" "Spanish" warm []
                    Hwf Hcap) "buena partida");
      reflexivity.
  - assert (Hwf : OrderedDict.wf (Translator.entries tr)) by constructor.
    assert (Hcap : 1 <= SimpleLRU.capacity (Translator.cache tr))
      by (simpl; lia).
    apply (proj2 (translate_twice_one_request svc "gg ez" "Spanish" tr []
                    Hwf Hcap) " buena partida ");
      reflexivity.
Defined.

(** C2 (as stated) fails: when the service is down, each of the two calls
    makes its own request. *)
Lemma translate_twice_two_requests :
  ~ (forall (svc : Translator.service) (text lang : string)
            (st : Translator.state),
        let st1 := snd (Translator.translate svc text lang st) in
        let st2 := snd (Translator.translate svc text lang st1) in
        List.length (snd st2) <= S (List.length (snd st))).
Proof.
  intros Hall.
  specialize (Hall (fun _ _ => Translator.Fails "timeout") "gg ez" "Spanish"
                (Translator.init None (Some "sk-test") "gpt-4.1-mini" None, [])).
  vm_compute in Hall. lia.
Qed.

(** A failing request on a new translator. *)
Lemma failed_translate_not_cached_witness :
  let svc : Translator.service := fun _ _ => Translator.Fails "timeout" in
  let tr := Translator.init None (Some "sk-test") "gpt-4.1-mini" None in
  exists tr1,
    Translator.translate svc "gg ez" "Spanish" (tr, [])
    = (Return (Translator.error_text "timeout"),
       (tr1, [] ++ [Translator.request_for tr "gg ez" "Spanish"]))
    /\ (forall k, OrderedDict.getitem k (Translator.entries tr1)
                  = OrderedDict.getitem k (Translator.entries tr))
    /\ (OrderedDict.getitem (Translator.cache_key "Spanish" "gg ez")
          (Translator.entries tr) = None -> tr1 = tr)
    /\ exists r2 tr2,
        Translator.translate svc "gg ez" "Spanish"
          (tr1, [] ++ [Translator.request_for tr "gg ez" "Spanish"])
        = (Return r2,
           (tr2, ([] ++ [Translator.request_for tr "gg ez" "Spanish"])
                 ++ [Translator.request_for tr "gg ez" "Spanish"])).
Proof.
  intros svc tr.
  apply (failed_translate_not_cached svc "gg ez" "Spanish" tr [] "timeout"
           (NoDup_nil string));
    reflexivity.
Defined.

(** C10 (as stated) fails on the order of the cache.  The service answers
    the first request with blanks, the second with a translation, and then
    fails.  The blank answer is cached as the empty text; asking for it
    again is a hit for [get], which moves the entry to the end, and a miss
    for [translate], whose request then fails. *)
Lemma failed_translate_moves_entry :
  let svc : Translator.service :=
    fun calls _ =>
      match List.length calls with
      | 0 => Translator.Content "   "
      | 1 => Translator.Content "hola"
      | _ => Translator.Fails "timeout"
      end in
  let st0 := (Translator.init None (Some "sk-test") "gpt-4.1-mini" None, []) in
  let st1 := snd (Translator.translate svc "gg ez" "Spanish" st0) in
  let st2 := snd (Translator.translate svc "hi" "Spanish" st1) in
  let r3 := Translator.translate svc "gg ez" "Spanish" st2 in
  Translator.entries (fst st2)
  = [("Spanish::gg ez", ""); ("Spanish::hi", "hola")]
  /\ fst r3 = Return (Translator.error_text "timeout")
  /\ Translator.entries (fst (snd r3))
     = [("Spanish::hi", "hola"); ("Spanish::gg ez", "")]
  /\ Translator.cache (fst (snd r3)) <> Translator.cache (fst st2).
Proof.
  vm_compute. repeat split. discriminate.
Qed.

(** ** FileAdapter *)







(** A blank line appended after the start is put on the queue as the empty
    text, and a line written in two parts is put on the queue as two
    items. *)
Example file_adapter_empty_and_partial_items :
  FileAdapter.out_queue
    (FileAdapter.run (FileAdapter.init "chat.log") ("hello" +++ PyStr.NL) None
       [FileAdapter.Append PyStr.NL; FileAdapter.Iterate])
  = [EmptyString]
  /\ FileAdapter.out_queue
       (FileAdapter.run (FileAdapter.init "chat.log") ("hello" +++ PyStr.NL) None
          [FileAdapter.Append "gg"; FileAdapter.Iterate;
           FileAdapter.Append (" ez" +++ PyStr.NL); FileAdapter.Iterate])
     = ["gg"; "ez"].
Proof. split; reflexivity. Qed.









(** ** Queues without immediate repeats *)

Lemma last_cons (x y : string) (r : list string) :
  List.last (y :: r) x = List.last r y.
Proof.
  revert x y. induction r as [|z r IH]; intros x y; [reflexivity|].
  change (List.last (z :: r) x = List.last (z :: r) y).
  now rewrite (IH x z), (IH y z).
Qed.

Lemma last_app_default (l1 l2 : list string) : forall x,
  List.last (l1 ++ l2) x = List.last l2 (List.last l1 x).
Proof.
  induction l1 as [|y r IH]; intros x; [reflexivity|].
  change ((y :: r) ++ l2) with (y :: (r ++ l2)).
  now rewrite !last_cons, IH.
Qed.

Lemma no_repeat_tail (x : string) (q : list string) :
  no_repeat (x :: q) -> no_repeat q.
Proof. simpl. tauto. Qed.

(** Two runs of emissions chain when the second starts off the last item
    of the first. *)
Lemma no_repeat_chain (raws raws2 : list string) : forall x,
  no_repeat (x :: raws) ->
  no_repeat (List.last raws x :: raws2) ->
  no_repeat (x :: raws ++ raws2).
Proof.
  induction raws as [|y r IH]; intros x H1 H2; [exact H2|].
  rewrite last_cons in H2. destruct H1 as [Hxy H1].
  split; [exact Hxy|]. now apply IH.
Qed.

(** ** ClipboardAdapter *)

Lemma clipboard_error_truthy (e : string) :
  PyStr.truthy (PyStr.strip (ClipboardAdapter.error_text e)) = true.
Proof. now apply strip_nonspace_head. Qed.

Lemma clipboard_step_nonblank (st : ClipboardAdapter.t * list string)
    (ev : ClipboardAdapter.event) :
  Forall (fun x => PyStr.truthy (PyStr.strip x) = true) (snd st) ->
  Forall (fun x => PyStr.truthy (PyStr.strip x) = true)
    (snd (ClipboardAdapter.step st ev)).
Proof.
  destruct st as [a q]. intros Hq. destruct ev as [[txt| |e]|]; simpl.
  - destruct (ClipboardAdapter._stop a); [exact Hq|].
    destruct (PyStr.truthy (PyStr.strip txt)) eqn:Ht; simpl; [|exact Hq].
    destruct (ClipboardAdapter.differs txt _); simpl; [|exact Hq].
    apply Forall_app. split; [exact Hq|]. constructor; [|constructor].
    now rewrite strip_idempotent.
  - now destruct (ClipboardAdapter._stop a).
  - destruct (ClipboardAdapter._stop a); [exact Hq|]. simpl.
    apply Forall_app. split; [exact Hq|]. constructor; [|constructor].
    apply clipboard_error_truthy.
  - exact Hq.
Qed.

Lemma clipboard_run_nonblank (evs : list ClipboardAdapter.event) :
  forall st,
    Forall (fun x => PyStr.truthy (PyStr.strip x) = true) (snd st) ->
    Forall (fun x => PyStr.truthy (PyStr.strip x) = true)
      (snd (fold_left ClipboardAdapter.step evs st)).
Proof.
  induction evs as [|ev r IH]; intros st Hq; simpl; [exact Hq|].
  apply IH, clipboard_step_nonblank, Hq.
Qed.

(** The texts behind the items a run of polls emits: each is one of the
    polled texts, none is blank, and each differs from the one before it,
    the first from what the adapter emitted last. *)
Lemma clipboard_run_raws (txts : list string) :
  forall (a : ClipboardAdapter.t) (q : list string),
  exists raws a',
    fold_left ClipboardAdapter.step
      (map (fun t => ClipboardAdapter.Poll (ClipboardAdapter.Str t)) txts) (a, q)
    = (a', q ++ map PyStr.strip raws)
    /\ incl raws txts
    /\ match ClipboardAdapter._last a with
       | Some l => no_repeat (l :: raws)
       | None => no_repeat raws
       end.
Proof.
  induction txts as [|t r IH]; intros a q.
  - exists [], a. simpl. rewrite app_nil_r.
    split; [reflexivity|]. split; [apply incl_refl|].
    now destruct (ClipboardAdapter._last a).
  - cbn [map fold_left ClipboardAdapter.step].
    assert (Hskip : exists raws a',
               fold_left ClipboardAdapter.step
                 (map (fun t => ClipboardAdapter.Poll (ClipboardAdapter.Str t)) r)
                 (a, q)
               = (a', q ++ map PyStr.strip raws)
               /\ incl raws (t :: r)
               /\ match ClipboardAdapter._last a with
                  | Some l => no_repeat (l :: raws)
                  | None => no_repeat raws
                  end).
    { destruct (IH a q) as (raws & a' & E & Hin & Hch).
      exists raws, a'. split; [exact E|]. split; [|exact Hch].
      now apply incl_tl. }
    destruct (ClipboardAdapter._stop a) eqn:Hs; [exact Hskip|].
    destruct (PyStr.truthy (PyStr.strip t)); simpl andb; [|exact Hskip].
    destruct (ClipboardAdapter.differs t (ClipboardAdapter._last a)) eqn:Hd;
      [|exact Hskip].
    destruct (IH (ClipboardAdapter.mk false (Some t)) (q ++ [PyStr.strip t]))
      as (raws & a' & E & Hin & Hch).
    exists (t :: raws), a'. split; [|split].
    + rewrite E. simpl. now rewrite <- app_assoc.
    + intros x [<-|Hx]; [now left | right; now apply Hin].
    + simpl in Hch. unfold ClipboardAdapter.differs in Hd.
      destruct (ClipboardAdapter._last a) as [l|]; [|exact Hch].
      split; [|exact Hch].
      apply negb_true_iff, String.eqb_neq in Hd. congruence.
Qed.

(** C7 (as amended). Every item the clipboard adapter emits is non-empty
    after trimming; the items a run of polls emits are the trimmed forms of
    clipboard texts each of which differs, untrimmed, from the one emitted
    before it; and a non-blank text read twice in a row by a new adapter
    gives exactly one item. *)
Theorem clipboard_emissions :
  (forall a evs x,
      In x (snd (ClipboardAdapter.run a evs)) ->
      PyStr.truthy (PyStr.strip x) = true)
  /\ (forall a txts,
      exists raws,
        snd (ClipboardAdapter.run a
               (map (fun t => ClipboardAdapter.Poll (ClipboardAdapter.Str t)) txts))
        = map PyStr.strip raws
        /\ incl raws txts
        /\ match ClipboardAdapter._last a with
           | Some l => no_repeat (l :: raws)
           | None => no_repeat raws
           end)
  /\ (forall txt,
      PyStr.truthy (PyStr.strip txt) = true ->
      snd (ClipboardAdapter.run ClipboardAdapter.init
             [ClipboardAdapter.Poll (ClipboardAdapter.Str txt);
              ClipboardAdapter.Poll (ClipboardAdapter.Str txt)])
      = [PyStr.strip txt]).
Proof.
  split; [|split].
  - intros a evs x Hin.
    pose proof (clipboard_run_nonblank evs (a, []) (Forall_nil _)) as Hall.
    rewrite Forall_forall in Hall. now apply Hall.
  - intros a txts. unfold ClipboardAdapter.run.
    destruct (clipboard_run_raws txts a []) as (raws & a' & E & Hin & Hch).
    exists raws. rewrite E. now repeat split.
  - intros txt Ht. unfold ClipboardAdapter.run. simpl.
    rewrite Ht. simpl. rewrite Ht. simpl.
    now rewrite String.eqb_refl.
Qed.

Lemma clipboard_emissions_witness :
  PyStr.truthy (PyStr.strip "gg") = true
  /\ snd (ClipboardAdapter.run ClipboardAdapter.init
            [ClipboardAdapter.Poll (ClipboardAdapter.Str " gg ez ");
             ClipboardAdapter.Poll (ClipboardAdapter.Str " gg ez ")])
     = [PyStr.strip " gg ez "].
Proof.
  destruct clipboard_emissions as (H1 & _ & H3). split.
  - apply (H1 ClipboardAdapter.init
             [ClipboardAdapter.Poll (ClipboardAdapter.Str " gg ")] "gg").
    simpl. now left.
  - apply (H3 " gg ez "). reflexivity.
Defined.

(** C7 (as stated) fails: the comparison is made on the text as read, so a
    text that differs only by white space at its ends is emitted again with
    the same trimmed value. *)
Lemma clipboard_repeats_emitted_value :
  ~ (forall txts,
        no_repeat
          (snd (ClipboardAdapter.run ClipboardAdapter.init
                  (map (fun t => ClipboardAdapter.Poll (ClipboardAdapter.Str t))
                       txts)))).
Proof.
  intros Hall. specialize (Hall ["gg"; "gg "]).
  vm_compute in Hall. destruct Hall as [Hne _]. now apply Hne.
Qed.

(** ** OCRAdapter *)

Lemma ocr_set_last_same (a : OCRAdapter.t) :
  OCRAdapter.set_last_text a (OCRAdapter._last_text a) = a.
Proof. now destruct a. Qed.

(** The [for] loop emits lines each of which differs from the one emitted
    before it, the first from the line remembered on entry, and remembers
    the last of them. *)
Lemma ocr_emit_chain (ls : list string) :
  forall (a : OCRAdapter.t) (q : list string),
  exists raws,
    OCRAdapter.emit ls a q
    = (OCRAdapter.set_last_text a (List.last raws (OCRAdapter._last_text a)),
       q ++ raws)
    /\ no_repeat (OCRAdapter._last_text a :: raws).
Proof.
  induction ls as [|l r IH]; intros a q.
  - exists []. simpl. now rewrite app_nil_r, ocr_set_last_same.
  - simpl. destruct (String.eqb l (OCRAdapter._last_text a)) eqn:E; simpl.
    + apply IH.
    + destruct (IH (OCRAdapter.set_last_text a l) (q ++ [l])) as (raws & Er & Hch).
      exists (l :: raws). rewrite Er, last_cons, <- app_assoc. simpl.
      split; [reflexivity|]. split; [|exact Hch].
      apply String.eqb_neq in E. congruence.
Qed.

Lemma ocr_run_chain (txts : list string) :
  forall (a : OCRAdapter.t) (q : list string),
  exists raws a',
    fold_left OCRAdapter.step
      (map (fun t => OCRAdapter.Poll (OCRAdapter.Text t)) txts) (a, q)
    = (a', q ++ raws)
    /\ OCRAdapter._last_text a' = List.last raws (OCRAdapter._last_text a)
    /\ no_repeat (OCRAdapter._last_text a :: raws).
Proof.
  induction txts as [|t r IH]; intros a q.
  - exists [], a. simpl. now rewrite app_nil_r.
  - cbn [map fold_left OCRAdapter.step].
    destruct (OCRAdapter._stop a) eqn:Hs; [apply IH|].
    destruct (ocr_emit_chain (OCRAdapter.lines t) a q) as (raws1 & E1 & H1).
    rewrite E1.
    destruct (IH (OCRAdapter.set_last_text a
                    (List.last raws1 (OCRAdapter._last_text a)))
                 (q ++ raws1)) as (raws2 & a' & E2 & Hl2 & H2).
    simpl in Hl2, H2.
    exists (raws1 ++ raws2), a'. rewrite E2, <- app_assoc.
    split; [reflexivity|]. split.
    + now rewrite Hl2, last_app_default.
    + now apply no_repeat_chain.
Qed.

Lemma ocr_step_stopped (a : OCRAdapter.t) (q : list string)
    (c : OCRAdapter.capture) :
  OCRAdapter._stop a = true ->
  OCRAdapter.step (a, q) (OCRAdapter.Poll c) = (a, q).
Proof. intros Hs. simpl. now rewrite Hs. Qed.

Lemma ocr_step_text (a : OCRAdapter.t) (q : list string) (t : string) :
  OCRAdapter._stop a = false ->
  OCRAdapter.step (a, q) (OCRAdapter.Poll (OCRAdapter.Text t))
  = OCRAdapter.emit (OCRAdapter.lines t) a q.
Proof. intros Hs. simpl. now rewrite Hs. Qed.

(** C8 (as amended). Two identical OCR reads in a row whose text has at
    most one non-blank line give at most one emission; a line that comes
    back after a different line has been emitted is emitted again; and no
    emitted line is ever followed at once by an equal one. *)
Theorem ocr_immediate_duplicates_only :
  (forall a text,
      List.length (OCRAdapter.lines text) <= 1 ->
      List.length
        (snd (OCRAdapter.run a
                [OCRAdapter.Poll (OCRAdapter.Text text);
                 OCRAdapter.Poll (OCRAdapter.Text text)])) <= 1)
  /\ (forall a t1 t2 x y,
      OCRAdapter._stop a = false ->
      OCRAdapter.lines t1 = [x] ->
      OCRAdapter.lines t2 = [y] ->
      x <> y ->
      snd (OCRAdapter.run a
             [OCRAdapter.Poll (OCRAdapter.Text t1);
              OCRAdapter.Poll (OCRAdapter.Text t2);
              OCRAdapter.Poll (OCRAdapter.Text t1)])
      = (if String.eqb x (OCRAdapter._last_text a) then [] else [x])
        ++ [y; x])
  /\ (forall a txts,
      no_repeat
        (snd (OCRAdapter.run a
                (map (fun t => OCRAdapter.Poll (OCRAdapter.Text t)) txts)))).
Proof.
  split; [|split].
  - intros a text Hlen. unfold OCRAdapter.run. cbn [fold_left].
    destruct (OCRAdapter._stop a) eqn:Hs.
    { rewrite !(ocr_step_stopped _ _ _ Hs). simpl. lia. }
    rewrite (ocr_step_text _ _ _ Hs).
    destruct (OCRAdapter.lines text) as [|l [|l' r]] eqn:El;
      [| |simpl in Hlen; lia].
    + cbn [OCRAdapter.emit]. rewrite (ocr_step_text _ _ _ Hs), El. simpl. lia.
    + cbn [OCRAdapter.emit].
      destruct (String.eqb l (OCRAdapter._last_text a)) eqn:E; cbn [negb].
      * rewrite (ocr_step_text a _ _ Hs), El. simpl. rewrite E. simpl. lia.
      * rewrite (ocr_step_text (OCRAdapter.set_last_text a l) _ _ Hs), El.
        simpl. rewrite String.eqb_refl. simpl. lia.
  - intros a t1 t2 x y Hs H1 H2 Hxy. unfold OCRAdapter.run. simpl.
    rewrite Hs, H1. simpl.
    assert (Eyx : String.eqb y x = false) by (apply String.eqb_neq; congruence).
    assert (Exy : String.eqb x y = false) by now apply String.eqb_neq.
    destruct (String.eqb x (OCRAdapter._last_text a)) eqn:E; simpl;
      rewrite Hs, H2; simpl.
    + apply String.eqb_eq in E. rewrite <- E, Eyx. simpl.
      rewrite Hs, H1. simpl. now rewrite Exy.
    + rewrite Eyx. simpl. rewrite Hs, H1. simpl. now rewrite Exy.
  - intros a txts. unfold OCRAdapter.run.
    destruct (ocr_run_chain txts a []) as (raws & a' & E & _ & Hch).
    rewrite E. simpl. now apply no_repeat_tail in Hch.
Qed.

Lemma ocr_lines_example :
  OCRAdapter.lines (" gg " +++ String PyStr.CR (PyStr.NL +++ "ez" +++ PyStr.NL))
  = ["gg"; "ez"].
Proof. reflexivity. Qed.

Lemma ocr_immediate_duplicates_only_witness :
  let a := OCRAdapter.init OCRAdapter.default_bbox in
  List.length
    (snd (OCRAdapter.run a
            [OCRAdapter.Poll (OCRAdapter.Text "gg");
             OCRAdapter.Poll (OCRAdapter.Text "gg")])) <= 1
  /\ snd (OCRAdapter.run a
            [OCRAdapter.Poll (OCRAdapter.Text "gg");
             OCRAdapter.Poll (OCRAdapter.Text "ez");
             OCRAdapter.Poll (OCRAdapter.Text "gg")])
     = (if String.eqb "gg" (OCRAdapter._last_text a) then [] else ["gg"])
       ++ ["ez"; "gg"].
Proof.
  intros a. destruct ocr_immediate_duplicates_only as (H1 & H2 & _). split.
  - apply (H1 a "gg"). simpl. lia.
  - apply (H2 a "gg" "ez" "gg" "ez");
      [reflexivity | reflexivity | reflexivity | discriminate].
Defined.

(** C8 (as stated) fails: a text of two different lines read twice in a row
    has all its lines emitted both times. *)
Lemma ocr_identical_reads_emit_again :
  ~ (forall a text,
        List.length
          (snd (OCRAdapter.run a
                  [OCRAdapter.Poll (OCRAdapter.Text text);
                   OCRAdapter.Poll (OCRAdapter.Text text)])) <= 1).
Proof.
  intros Hall.
  specialize (Hall (OCRAdapter.init OCRAdapter.default_bbox)
                ("gg" +++ PyStr.NL +++ "ez")).
  vm_compute in Hall. lia.
Qed.

(** ** TranslatorApp: the session *)

(** C9. [start] on a running session changes nothing, so a second [start]
    adds nothing to the first; [stop] on a session that is not running
    changes nothing; [stop] on a running session logs once, flags the
    adapter and leaves the session not running, so a second [stop] adds
    nothing to the first. *)
Theorem session_start_stop_idempotent
    (env : TranslatorApp.environment) (a : TranslatorApp.t) :
  (TranslatorApp.running a = true -> TranslatorApp.start env a = a)
  /\ (TranslatorApp.running (TranslatorApp.start env a) = true ->
      TranslatorApp.start env (TranslatorApp.start env a)
      = TranslatorApp.start env a)
  /\ (TranslatorApp.running a = false -> TranslatorApp.stop a = a)
  /\ TranslatorApp.running (TranslatorApp.stop a) = false
  /\ (TranslatorApp.running a = true ->
      TranslatorApp.log (TranslatorApp.stop a)
      = TranslatorApp.log a ++ ["[System] Stopped."]
      /\ TranslatorApp.adapter (TranslatorApp.stop a)
         = option_map TranslatorApp.adapter_stop (TranslatorApp.adapter a))
  /\ TranslatorApp.stop (TranslatorApp.stop a) = TranslatorApp.stop a.
Proof.
  assert (Hstart : forall b, TranslatorApp.running b = true ->
                             TranslatorApp.start env b = b).
  { intros b Hb. unfold TranslatorApp.start. now rewrite Hb. }
  assert (Hstop : forall b, TranslatorApp.running b = false ->
                            TranslatorApp.stop b = b).
  { intros b Hb. unfold TranslatorApp.stop. now rewrite Hb. }
  assert (Hidle : TranslatorApp.running (TranslatorApp.stop a) = false).
  { unfold TranslatorApp.stop.
    destruct (TranslatorApp.running a) eqn:Hr; simpl; [reflexivity | exact Hr]. }
  split; [apply Hstart|]. split; [apply Hstart|].
  split; [apply Hstop|]. split; [exact Hidle|].
  split; [|apply Hstop, Hidle].
  intros Hr. unfold TranslatorApp.stop. rewrite Hr. simpl.
  split; [reflexivity|]. now destruct (TranslatorApp.adapter a).
Qed.

(** A session on the clipboard: stopped before it starts, started twice,
    stopped twice. *)
Lemma session_start_stop_idempotent_witness :
  let env := TranslatorApp.mk_environment (Some "sk-test") (fun _ => false)
               (fun _ => None) in
  let a0 := TranslatorApp.init
              (TranslatorApp.mk_inputs "clipboard" "" "Spanish" "" false) in
  let a := TranslatorApp.start env a0 in
  TranslatorApp.stop a0 = a0
  /\ TranslatorApp.start env a = a
  /\ TranslatorApp.start env (TranslatorApp.start env a0)
     = TranslatorApp.start env a0
  /\ (TranslatorApp.log (TranslatorApp.stop a)
      = TranslatorApp.log a ++ ["[System] Stopped."]
      /\ TranslatorApp.adapter (TranslatorApp.stop a)
         = option_map TranslatorApp.adapter_stop (TranslatorApp.adapter a))
  /\ TranslatorApp.stop (TranslatorApp.stop a) = TranslatorApp.stop a.
Proof.
  intros env a0 a.
  destruct (session_start_stop_idempotent env a)
    as (Hstart & _ & _ & _ & Hstop & Htwice).
  destruct (session_start_stop_idempotent env a0)
    as (_ & Hstart2 & Hidle & _).
  split; [apply Hidle; reflexivity|].
  split; [apply Hstart; reflexivity|].
  split; [apply Hstart2; reflexivity|].
  split; [apply Hstop; reflexivity | exact Htwice].
Defined.

Example session_log :
  let env := TranslatorApp.mk_environment (Some "sk-test") (fun _ => false)
               (fun _ => None) in
  let a := TranslatorApp.init
             (TranslatorApp.mk_inputs "clipboard" "" "Spanish" "" false) in
  TranslatorApp.log
    (TranslatorApp.stop
       (TranslatorApp.stop
          (TranslatorApp.start env (TranslatorApp.start env a))))
  = ["[System] Started adapter: clipboard"; "[System] Stopped."].
Proof. reflexivity. Qed.

(** ** The worker and the poller *)

(** An error text that an adapter has put on the ingest queue goes to the
    render queue as it is and is logged as an error line in both modes. *)
Lemma adapter_error_is_rendered_as_error :
  let svc : Translator.service := fun _ _ => Translator.Content "hola" in
  let env := TranslatorApp.mk_environment (Some "sk-test") (fun _ => false)
               (fun _ => None) in
  let a := TranslatorApp.set_in_queue
             (TranslatorApp.start env
                (TranslatorApp.init
                   (TranslatorApp.mk_inputs "clipboard" "" "Spanish" "" false)))
             ["__ERROR__ ClipboardAdapter: no display"] in
  let a' := fst (snd (TranslatorApp.worker_iteration svc "Spanish" (a, []))) in
  TranslatorApp.out_queue a' = [RStr "__ERROR__ ClipboardAdapter: no display"]
  /\ forall overlay,
      TranslatorApp.render overlay (RStr "__ERROR__ ClipboardAdapter: no display")
      = Some "[Error] __ERROR__ ClipboardAdapter: no display".
Proof. split; [reflexivity | intros []; reflexivity]. Qed.

(** Whatever [translate] returns is paired with the line: a line whose
    request fails goes to the render queue as a pair. *)
Lemma worker_pairs_failed_translation (svc : Translator.service)
    (lang item : string) (rest : list string) (a : TranslatorApp.t)
    (tr : Translator.t) (calls : list Translator.request) (e : string) :
  TranslatorApp.running a = true ->
  TranslatorApp.in_queue a = item :: rest ->
  PyStr.startswith item ERROR_TAG = false ->
  TranslatorApp.translator a = Some tr ->
  OrderedDict.wf (Translator.entries tr) ->
  PyStr.falsy
    (OrderedDict.getitem (Translator.cache_key lang item) (Translator.entries tr)) = true ->
  svc calls (Translator.request_for tr item lang) = Translator.Fails e ->
  TranslatorApp.out_queue
    (fst (snd (TranslatorApp.worker_iteration svc lang (a, calls))))
  = TranslatorApp.out_queue a ++ [RPair item (Translator.error_text e)].
Proof.
  intros Hrun Hq Htag Htr Hwf Hmiss Hsvc.
  unfold TranslatorApp.worker_iteration. rewrite Hrun, Hq. simpl negb.
  cbv iota. rewrite Htag. simpl TranslatorApp.translator. rewrite Htr.
  now rewrite (translate_miss_fails svc item lang tr calls e Hwf Hmiss Hsvc).
Qed.

(** A pair is never logged as an error line. *)
Lemma pair_is_rendered_as_entry (overlay : bool) (orig trans : string) :
  TranslatorApp.render overlay (RPair orig trans)
  = Some (TranslatorApp.entry overlay orig trans).
Proof. reflexivity. Qed.

(** C1, at the input where the code departs from it: when the request for
    a line fails, the worker puts the pair of the line and the error text
    on the render queue, and the poller logs it as a translation, differently
    in the two modes, never as an error line. *)
Theorem failed_translation_is_rendered_as_pair :
  let svc : Translator.service := fun _ _ => Translator.Fails "timeout" in
  let env := TranslatorApp.mk_environment (Some "sk-test") (fun _ => false)
               (fun _ => None) in
  let session overlay :=
    TranslatorApp.set_in_queue
      (TranslatorApp.start env
         (TranslatorApp.init
            (TranslatorApp.mk_inputs "clipboard" "" "Spanish" "" overlay)))
      ["gg ez"] in
  let worked overlay :=
    TranslatorApp._worker svc "Spanish" 1 (session overlay, []) in
  let polled overlay :=
    TranslatorApp._process_queues (fst (snd (worked overlay))) in
  (forall overlay,
      fst (worked overlay) = Return tt
      /\ TranslatorApp.out_queue (fst (snd (worked overlay)))
         = [RPair "gg ez" "__ERROR__ Translator: timeout"])
  /\ TranslatorApp.log (snd (polled false))
     = ["[System] Started adapter: clipboard";
        "[ORIG] gg ez" +++ PyStr.NL
        +++ "[TRANSLATION] __ERROR__ Translator: timeout" +++ PyStr.NL]
  /\ TranslatorApp.log (snd (polled true))
     = ["[System] Started adapter: clipboard";
        "__ERROR__ Translator: timeout"].
Proof. split; [intros []; split; reflexivity | split; reflexivity]. Qed.

(** * Further properties of the code *)

(** ** SimpleLRU: lookups, overwrites and mixed calls *)

Section LRUMore.
Context {K V : Type} `{EqDec K}.
Implicit Types (s : SimpleLRU.t K V) (d : OrderedDict.t K V) (k x : K) (v : V).

Lemma length_delitem_present x v d :
  OrderedDict.getitem x d = Some v ->
  S (List.length (OrderedDict.delitem x d)) = List.length d.
Proof.
  induction d as [|[k' v'] r IH]; simpl; [discriminate|].
  destruct (eq_dec x k'); [reflexivity|].
  intros E. simpl. now rewrite IH.
Qed.

(** Re-inserting a key at the end leaves every other key as it was. *)
Lemma getitem_reinsert x v d k :
  k <> x ->
  OrderedDict.getitem k (OrderedDict.delitem x d ++ [(x, v)])
  = OrderedDict.getitem k d.
Proof.
  intros Hne.
  destruct (OrderedDict.getitem k (OrderedDict.delitem x d)) as [w|] eqn:E.
  - rewrite (getitem_app_present _ _ _ _ E).
    now rewrite <- E, getitem_delitem_other.
  - rewrite (getitem_app_absent _ _ _ E). simpl.
    destruct (eq_dec k x); [contradiction|].
    now rewrite <- E, getitem_delitem_other.
Qed.

Lemma get_size k s :
  OrderedDict.wf (SimpleLRU.cache s) ->
  OrderedDict.len (SimpleLRU.cache (snd (SimpleLRU.get k s)))
  = OrderedDict.len (SimpleLRU.cache s).
Proof.
  intros Hwf. rewrite (get_spec k s Hwf). unfold OrderedDict.len.
  destruct (OrderedDict.getitem k (SimpleLRU.cache s)) as [v|] eqn:E;
    [|reflexivity].
  simpl. rewrite length_app. simpl.
  rewrite <- (length_delitem_present k v _ E). lia.
Qed.

Lemma get_returns k s :
  OrderedDict.wf (SimpleLRU.cache s) ->
  fst (SimpleLRU.get k s)
  = Return (OrderedDict.getitem k (SimpleLRU.cache s)).
Proof.
  intros Hwf. rewrite (get_spec k s Hwf).
  now destruct (OrderedDict.getitem k (SimpleLRU.cache s)).
Qed.

(** One call on a well-formed cache within its capacity returns and leaves
    such a cache. *)
Lemma run_call_invariant (c : SimpleLRU.call K V) s :
  OrderedDict.wf (SimpleLRU.cache s) ->
  OrderedDict.len (SimpleLRU.cache s) <= SimpleLRU.capacity s ->
  exists s',
    SimpleLRU.run_call c s = (Return tt, s')
    /\ SimpleLRU.capacity s' = SimpleLRU.capacity s
    /\ OrderedDict.wf (SimpleLRU.cache s')
    /\ OrderedDict.len (SimpleLRU.cache s') <= SimpleLRU.capacity s'.
Proof.
  intros Hwf Hle. destruct c as [k|k v]; simpl.
  - pose proof (get_returns k s Hwf) as Hr.
    pose proof (get_capacity k s) as Hc.
    pose proof (wf_get k s Hwf) as Hw.
    pose proof (get_size k s Hwf) as Hs.
    destruct (SimpleLRU.get k s) as [o s']. simpl in *. subst o.
    exists s'. repeat split; try assumption. lia.
  - pose proof (put_returns k v s) as Hr.
    pose proof (put_capacity k v s) as Hc.
    pose proof (wf_put k v s Hwf) as Hw.
    pose proof (put_size k v s Hle) as Hs.
    destruct (SimpleLRU.put k v s) as [o s']. simpl in *. subst o.
    exists s'. repeat split; try assumption. lia.
Qed.

Lemma run_calls_invariant (cs : list (SimpleLRU.call K V)) : forall s,
  OrderedDict.wf (SimpleLRU.cache s) ->
  OrderedDict.len (SimpleLRU.cache s) <= SimpleLRU.capacity s ->
  exists s',
    SimpleLRU.run_calls cs s = (Return tt, s')
    /\ SimpleLRU.capacity s' = SimpleLRU.capacity s
    /\ OrderedDict.wf (SimpleLRU.cache s')
    /\ OrderedDict.len (SimpleLRU.cache s') <= SimpleLRU.capacity s'.
Proof.
  induction cs as [|c r IH]; intros s Hwf Hle; simpl.
  - now exists s.
  - destruct (run_call_invariant c s Hwf Hle) as (s1 & E & Hc & Hw & Hs).
    rewrite E. destruct (IH s1 Hw Hs) as (s' & E' & Hc' & Hw' & Hs').
    exists s'. repeat split; try assumption. congruence.
Qed.

(** X1. In a cache that can hold at least one item, a value that has just
    been put is what the next [get] of its key returns. *)
Theorem lru_put_then_get k v s :
  OrderedDict.wf (SimpleLRU.cache s) ->
  1 <= SimpleLRU.capacity s ->
  exists s1 s2,
    SimpleLRU.put k v s = (Return tt, s1)
    /\ SimpleLRU.get k s1 = (Return (Some v), s2).
Proof.
  intros Hwf Hcap.
  pose proof (put_returns k v s) as Hr.
  pose proof (wf_put k v s Hwf) as Hw.
  pose proof (getitem_put_same k v s Hcap Hwf) as Hg.
  destruct (SimpleLRU.put k v s) as [o s1]. simpl in *. subst o.
  exists s1. eexists. split; [reflexivity|].
  rewrite (get_spec k s1 Hw), Hg. reflexivity.
Qed.

(** X2. A [get] returns what the key maps to, [None] for a missing key, and
    changes neither the size of the cache nor what any key maps to; on a
    missing key it changes nothing at all. *)
Theorem lru_get_keeps_entries k s :
  OrderedDict.wf (SimpleLRU.cache s) ->
  exists s',
    SimpleLRU.get k s
    = (Return (OrderedDict.getitem k (SimpleLRU.cache s)), s')
    /\ OrderedDict.len (SimpleLRU.cache s') = OrderedDict.len (SimpleLRU.cache s)
    /\ (forall k', OrderedDict.getitem k' (SimpleLRU.cache s')
                   = OrderedDict.getitem k' (SimpleLRU.cache s))
    /\ (OrderedDict.getitem k (SimpleLRU.cache s) = None -> s' = s).
Proof.
  intros Hwf.
  pose proof (get_size k s Hwf) as Hs.
  rewrite (get_spec k s Hwf) in *.
  destruct (OrderedDict.getitem k (SimpleLRU.cache s)) as [v|] eqn:E.
  - eexists. split; [reflexivity|]. split; [exact Hs|]. split; [|discriminate].
    intros k'. simpl. now apply getitem_touch.
  - exists s. now repeat split.
Qed.

(** X3. A [put] evicts only when its key is new and the cache is full:
    when the key is already there, or there is room, the key maps to the
    new value afterwards and every other key maps to what it did. *)
Theorem lru_put_evicts_only_when_full k v s :
  OrderedDict.len (SimpleLRU.cache s) <= SimpleLRU.capacity s ->
  OrderedDict.contains k (SimpleLRU.cache s) = true
  \/ OrderedDict.len (SimpleLRU.cache s) < SimpleLRU.capacity s ->
  exists s',
    SimpleLRU.put k v s = (Return tt, s')
    /\ SimpleLRU.cache s'
       = OrderedDict.delitem k (SimpleLRU.cache s) ++ [(k, v)]
    /\ forall k', k' <> k ->
                  OrderedDict.getitem k' (SimpleLRU.cache s')
                  = OrderedDict.getitem k' (SimpleLRU.cache s).
Proof.
  unfold OrderedDict.len, OrderedDict.contains. intros Hle Hroom.
  rewrite put_spec. cbv zeta. eexists. split; [reflexivity|].
  assert (Hfit : (SimpleLRU.capacity s
                  <? List.length (OrderedDict.delitem k (SimpleLRU.cache s)
                                  ++ [(k, v)])) = false).
  { apply Nat.ltb_ge. rewrite length_app. simpl.
    destruct (OrderedDict.getitem k (SimpleLRU.cache s)) as [w|] eqn:E.
    - rewrite <- (length_delitem_present k w _ E) in Hle. lia.
    - destruct Hroom as [Hc|Hlt]; [discriminate|].
      pose proof (length_delitem_le k (SimpleLRU.cache s)). lia. }
  rewrite Hfit. simpl. split; [reflexivity|].
  intros k' Hne. now apply getitem_reinsert.
Qed.

(** X4. Any run of [get]s and [put]s on a cache whose keys are distinct
    and whose size is within its capacity returns without raising, and
    leaves the capacity as it was, the keys distinct and the size within
    the capacity. *)
Theorem lru_calls_keep_invariant (cs : list (SimpleLRU.call K V)) s :
  OrderedDict.wf (SimpleLRU.cache s) ->
  OrderedDict.len (SimpleLRU.cache s) <= SimpleLRU.capacity s ->
  exists s',
    SimpleLRU.run_calls cs s = (Return tt, s')
    /\ SimpleLRU.capacity s' = SimpleLRU.capacity s
    /\ OrderedDict.wf (SimpleLRU.cache s')
    /\ OrderedDict.len (SimpleLRU.cache s') <= SimpleLRU.capacity s'.
Proof.
  intros Hwf Hle.
  destruct (run_calls_invariant cs s Hwf Hle) as (s' & E & Hc & Hw & Hl).
  exists s'. split; [exact E|]. split; [exact Hc|]. split; [exact Hw | exact Hl].
Qed.

(** X5. A cache of capacity zero stores nothing: whatever is put into it
    or asked of it, it stays as it was made. *)
Theorem lru_zero_capacity_stays_empty (cs : list (SimpleLRU.call K V)) :
  SimpleLRU.run_calls cs (SimpleLRU.init 0) = (Return tt, SimpleLRU.init 0).
Proof.
  destruct (run_calls_invariant cs (SimpleLRU.init 0)) as (s' & E & Hc & _ & Hl).
  - constructor.
  - simpl. lia.
  - rewrite E. f_equal. destruct s' as [cap d]. simpl in *.
    unfold OrderedDict.len in Hl. subst cap.
    destruct d; [reflexivity | simpl in Hl; lia].
Qed.

End LRUMore.

Lemma lru_put_then_get_witness :
  exists s1 s2,
    SimpleLRU.put "b" "2" (SimpleLRU.mk 1 [("a", "1")]) = (Return tt, s1)
    /\ SimpleLRU.get "b" s1 = (Return (Some "2"), s2).
Proof.
  apply (lru_put_then_get "b" "2" (SimpleLRU.mk 1 [("a", "1")])).
  - repeat constructor; simpl; tauto.
  - simpl. lia.
Defined.

Lemma lru_get_keeps_entries_witness :
  let s := SimpleLRU.mk 2 [("a", "1"); ("b", "2")] in
  exists s',
    SimpleLRU.get "a" s
    = (Return (OrderedDict.getitem "a" (SimpleLRU.cache s)), s')
    /\ OrderedDict.len (SimpleLRU.cache s') = OrderedDict.len (SimpleLRU.cache s)
    /\ (forall k', OrderedDict.getitem k' (SimpleLRU.cache s')
                   = OrderedDict.getitem k' (SimpleLRU.cache s))
    /\ (OrderedDict.getitem "a" (SimpleLRU.cache s) = None -> s' = s).
Proof.
  intros s. apply (lru_get_keeps_entries "a" s).
  repeat constructor; simpl; intuition discriminate.
Defined.

Lemma lru_put_evicts_only_when_full_witness :
  let s := SimpleLRU.mk 2 [("a", "1"); ("b", "2")] in
  exists s',
    SimpleLRU.put "a" "3" s = (Return tt, s')
    /\ SimpleLRU.cache s'
       = OrderedDict.delitem "a" (SimpleLRU.cache s) ++ [("a", "3")]
    /\ forall k', k' <> "a" ->
                  OrderedDict.getitem k' (SimpleLRU.cache s')
                  = OrderedDict.getitem k' (SimpleLRU.cache s).
Proof.
  intros s. apply (lru_put_evicts_only_when_full "a" "3" s).
  - simpl. lia.
  - left. reflexivity.
Defined.

Lemma lru_calls_keep_invariant_witness :
  let s := SimpleLRU.mk 2 [("a", "1"); ("b", "2")] in
  let cs := [SimpleLRU.Get "a"; SimpleLRU.Put "c" "3"; SimpleLRU.Get "zz"] in
  exists s',
    SimpleLRU.run_calls cs s = (Return tt, s')
    /\ SimpleLRU.capacity s' = SimpleLRU.capacity s
    /\ OrderedDict.wf (SimpleLRU.cache s')
    /\ OrderedDict.len (SimpleLRU.cache s') <= SimpleLRU.capacity s'.
Proof.
  intros s cs. apply (lru_calls_keep_invariant cs s).
  - repeat constructor; simpl; intuition discriminate.
  - simpl. lia.
Defined.

(** ** Translator: runs of calls, and blank answers *)

Section TranslateMore.
Variable svc : Translator.service.
Implicit Types (tr : Translator.t) (calls : list Translator.request).

(** One call of [translate] on a well-formed cache within its capacity
    returns, makes one request at most, and leaves such a cache. *)
Lemma translate_step text lang tr calls :
  OrderedDict.wf (Translator.entries tr) ->
  OrderedDict.len (Translator.entries tr)
  <= SimpleLRU.capacity (Translator.cache tr) ->
  exists r tr' new,
    Translator.translate svc text lang (tr, calls)
    = (Return r, (tr', calls ++ new))
    /\ List.length new <= 1
    /\ OrderedDict.wf (Translator.entries tr')
    /\ OrderedDict.len (Translator.entries tr')
       <= SimpleLRU.capacity (Translator.cache tr')
    /\ SimpleLRU.capacity (Translator.cache tr')
       = SimpleLRU.capacity (Translator.cache tr).
Proof.
  unfold Translator.entries. intros Hwf Hle.
  set (key := Translator.cache_key lang text).
  pose proof (get_returns key _ Hwf) as Hr.
  pose proof (get_capacity key (Translator.cache tr)) as Hc.
  pose proof (wf_get key _ Hwf) as Hw.
  pose proof (get_size key _ Hwf) as Hs.
  unfold Translator.translate. fold key.
  destruct (SimpleLRU.get key (Translator.cache tr)) as [o c0].
  simpl in Hr, Hc, Hw, Hs. subst o.
  assert (Hle0 : OrderedDict.len (SimpleLRU.cache c0) <= SimpleLRU.capacity c0)
    by lia.
  assert (Hmiss : exists r tr' new,
             (let (r, st') :=
                Translator.fetch svc text lang key (Translator.set_cache tr c0)
                  calls
              in (@Return (SimpleLRU.exn string) string r, st'))
             = (Return r, (tr', calls ++ new))
             /\ List.length new <= 1
             /\ OrderedDict.wf (SimpleLRU.cache (Translator.cache tr'))
             /\ OrderedDict.len (SimpleLRU.cache (Translator.cache tr'))
                <= SimpleLRU.capacity (Translator.cache tr')
             /\ SimpleLRU.capacity (Translator.cache tr')
                = SimpleLRU.capacity (Translator.cache tr)).
  { unfold Translator.fetch.
    destruct (svc calls _) as [content|e].
    - simpl Translator.cache.
      pose proof (put_returns key (PyStr.strip content) c0) as Hpr.
      pose proof (put_capacity key (PyStr.strip content) c0) as Hpc.
      pose proof (wf_put key (PyStr.strip content) c0 Hw) as Hpw.
      pose proof (put_size key (PyStr.strip content) c0 Hle0) as Hps.
      destruct (SimpleLRU.put key (PyStr.strip content) c0) as [o c1].
      simpl in Hpr, Hpc, Hpw, Hps. subst o.
      eexists; eexists; eexists. split; [reflexivity|]. simpl.
      repeat split; [lia | exact Hpw | lia | congruence].
    - eexists; eexists; eexists. split; [reflexivity|]. simpl.
      repeat split; [lia | exact Hw | lia | congruence]. }
  destruct (OrderedDict.getitem key _) as [v|]; [|exact Hmiss].
  destruct (PyStr.truthy v); [|exact Hmiss].
  exists v, (Translator.set_cache tr c0), []. rewrite app_nil_r. simpl.
  repeat split; [lia | exact Hw | lia | congruence].
Qed.

(** X6. A run of calls of [translate], from a cache whose keys are
    distinct and whose size is within its capacity, never raises, returns
    one value per call, makes no more requests than there are calls, and
    leaves the keys distinct and the size within the same capacity. *)
Theorem translate_all_bounded (jobs : list (string * string)) tr calls :
  OrderedDict.wf (Translator.entries tr) ->
  OrderedDict.len (Translator.entries tr)
  <= SimpleLRU.capacity (Translator.cache tr) ->
  exists rs tr' new,
    Translator.translate_all svc jobs (tr, calls)
    = (Return rs, (tr', calls ++ new))
    /\ List.length rs = List.length jobs
    /\ List.length new <= List.length jobs
    /\ OrderedDict.wf (Translator.entries tr')
    /\ OrderedDict.len (Translator.entries tr')
       <= SimpleLRU.capacity (Translator.cache tr')
    /\ SimpleLRU.capacity (Translator.cache tr')
       = SimpleLRU.capacity (Translator.cache tr).
Proof.
  revert tr calls.
  induction jobs as [|[text lang] rest IH]; intros tr calls Hwf Hle.
  - exists [], tr, []. simpl. rewrite app_nil_r. now repeat split.
  - cbn [Translator.translate_all].
    destruct (translate_step text lang tr calls Hwf Hle)
      as (r & tr1 & new1 & E1 & Hn1 & Hw1 & Hl1 & Hc1).
    rewrite E1.
    destruct (IH tr1 (calls ++ new1) Hw1 Hl1)
      as (rs & tr2 & new2 & E2 & Hr2 & Hn2 & Hw2 & Hl2 & Hc2).
    rewrite E2. exists (r :: rs), tr2, (new1 ++ new2).
    rewrite app_assoc. split; [reflexivity|]. rewrite length_app. simpl.
    repeat split; [lia | lia | exact Hw2 | exact Hl2 | congruence].
Qed.

(** X7. [translate] never hands back an empty text without having asked
    the service: a call that made no request returned a non-empty cached
    value. *)
Theorem translate_unasked_is_nonempty text lang tr calls r tr' :
  OrderedDict.wf (Translator.entries tr) ->
  Translator.translate svc text lang (tr, calls) = (Return r, (tr', calls)) ->
  PyStr.truthy r = true
  /\ OrderedDict.getitem (Translator.cache_key lang text) (Translator.entries tr)
     = Some r.
Proof.
  unfold Translator.entries. intros Hwf E.
  set (key := Translator.cache_key lang text) in *.
  assert (Hmiss : PyStr.falsy (OrderedDict.getitem key
                                 (SimpleLRU.cache (Translator.cache tr))) = true ->
                  False).
  { intros Hm. rewrite (translate_miss svc text lang tr calls Hwf Hm) in E.
    fold key in E.
    pose proof (fetch_makes_one_request svc text lang key
                  (Translator.set_cache tr
                     (snd (SimpleLRU.get key (Translator.cache tr)))) calls)
      as Hreq.
    destruct (Translator.fetch svc text lang key _ calls) as [r0 [tr0 calls0]].
    simpl in Hreq. injection E as _ _ Ecalls. rewrite Hreq in Ecalls.
    apply (f_equal (@List.length _)) in Ecalls.
    rewrite length_app in Ecalls. simpl in Ecalls. lia. }
  destruct (OrderedDict.getitem key _) as [v|] eqn:Eg;
    [|exfalso; now apply Hmiss].
  destruct (PyStr.truthy v) eqn:Ev;
    [|exfalso; apply Hmiss; simpl; now rewrite Ev].
  rewrite (translate_hit svc text lang tr calls v Hwf Eg Ev) in E.
  injection E as <- _. now split.
Qed.

(** X8. An answer that is blank is stored as the empty text and never
    served: the call returns the empty text, and the next call with the
    same arguments asks the service again. *)
Theorem blank_answer_is_asked_again text lang tr calls content :
  OrderedDict.wf (Translator.entries tr) ->
  1 <= SimpleLRU.capacity (Translator.cache tr) ->
  PyStr.falsy
    (OrderedDict.getitem (Translator.cache_key lang text)
       (Translator.entries tr)) = true ->
  svc calls (Translator.request_for tr text lang) = Translator.Content content ->
  PyStr.strip content = EmptyString ->
  exists tr1 r2 tr2,
    Translator.translate svc text lang (tr, calls)
    = (Return EmptyString,
       (tr1, calls ++ [Translator.request_for tr text lang]))
    /\ OrderedDict.getitem (Translator.cache_key lang text)
         (Translator.entries tr1) = Some EmptyString
    /\ Translator.translate svc text lang
         (tr1, calls ++ [Translator.request_for tr text lang])
       = (Return r2,
          (tr2, (calls ++ [Translator.request_for tr text lang])
                ++ [Translator.request_for tr text lang])).
Proof.
  intros Hwf Hcap Hmiss Hsvc Hblank.
  rewrite (translate_miss svc text lang tr calls Hwf Hmiss).
  set (key := Translator.cache_key lang text) in *.
  set (c0 := snd (SimpleLRU.get key (Translator.cache tr))).
  assert (Hwf0 : OrderedDict.wf (SimpleLRU.cache c0))
    by (apply wf_get; exact Hwf).
  assert (Hcap0 : 1 <= SimpleLRU.capacity c0)
    by (unfold c0; now rewrite get_capacity).
  unfold Translator.fetch.
  change (Translator.request_for (Translator.set_cache tr c0) text lang)
    with (Translator.request_for tr text lang).
  rewrite Hsvc, Hblank.
  change (Translator.cache (Translator.set_cache tr c0)) with c0.
  pose proof (put_returns key EmptyString c0) as Hret.
  pose proof (wf_put key EmptyString c0 Hwf0) as Hwf1.
  pose proof (getitem_put_same key EmptyString c0 Hcap0 Hwf0) as Hget1.
  destruct (SimpleLRU.put key EmptyString c0) as [o c1].
  simpl in Hret, Hwf1, Hget1. subst o.
  set (tr1 := Translator.set_cache (Translator.set_cache tr c0) c1).
  assert (Hmiss1 : PyStr.falsy
                     (OrderedDict.getitem key (Translator.entries tr1)) = true)
    by (unfold Translator.entries; simpl; now rewrite Hget1).
  pose proof (translate_miss svc text lang tr1
                (calls ++ [Translator.request_for tr text lang]) Hwf1 Hmiss1)
    as E2.
  fold key in E2.
  pose proof (fetch_makes_one_request svc text lang key
                (Translator.set_cache tr1
                   (snd (SimpleLRU.get key (Translator.cache tr1))))
                (calls ++ [Translator.request_for tr text lang])) as Hreq.
  destruct (Translator.fetch svc text lang key _ _) as [r2 [tr2 calls2]].
  simpl in Hreq. subst calls2.
  exists tr1, r2, tr2. split; [reflexivity|]. split; [exact Hget1 | exact E2].
Qed.

End TranslateMore.

Lemma translate_all_bounded_witness :
  let svc : Translator.service := fun _ _ => Translator.Content " hola " in
  let tr := Translator.init None (Some "sk-test") "gpt-4.1-mini" None in
  let jobs := [("hi", "Spanish"); ("hi", "Spanish"); ("yo", "Spanish")] in
  exists rs tr' new,
    Translator.translate_all svc jobs (tr, [])
    = (Return rs, (tr', [] ++ new))
    /\ List.length rs = List.length jobs
    /\ List.length new <= List.length jobs
    /\ OrderedDict.wf (Translator.entries tr')
    /\ OrderedDict.len (Translator.entries tr')
       <= SimpleLRU.capacity (Translator.cache tr')
    /\ SimpleLRU.capacity (Translator.cache tr')
       = SimpleLRU.capacity (Translator.cache tr).
Proof.
  intros svc tr jobs. apply (translate_all_bounded svc jobs tr []).
  - constructor.
  - simpl. lia.
Defined.

Lemma translate_unasked_is_nonempty_witness :
  let svc : Translator.service := fun _ _ => Translator.Fails "timeout" in
  let tr :=
    Translator.mk (Some "sk-test") "gpt-4.1-mini" "sys"
      (SimpleLRU.mk 1500 [("Spanish::hi", "hola")]) in
  let tr' :=
    Translator.mk (Some "sk-test") "gpt-4.1-mini" "sys"
      (SimpleLRU.mk 1500 [("Spanish::hi", "hola")]) in
  PyStr.truthy "hola" = true
  /\ OrderedDict.getitem (Translator.cache_key "Spanish" "hi")
       (Translator.entries tr) = Some "hola".
Proof.
  intros svc tr tr'.
  apply (translate_unasked_is_nonempty svc "hi" "Spanish" tr [] "hola" tr').
  - repeat constructor; simpl; tauto.
  - reflexivity.
Defined.

Lemma blank_answer_is_asked_again_witness :
  let svc : Translator.service := fun _ _ => Translator.Content "   " in
  let tr := Translator.init None (Some "sk-test") "gpt-4.1-mini" None in
  exists tr1 r2 tr2,
    Translator.translate svc "hi" "Spanish" (tr, [])
    = (Return EmptyString,
       (tr1, [] ++ [Translator.request_for tr "hi" "Spanish"]))
    /\ OrderedDict.getitem (Translator.cache_key "Spanish" "hi")
         (Translator.entries tr1) = Some EmptyString
    /\ Translator.translate svc "hi" "Spanish"
         (tr1, [] ++ [Translator.request_for tr "hi" "Spanish"])
       = (Return r2,
          (tr2, ([] ++ [Translator.request_for tr "hi" "Spanish"])
                ++ [Translator.request_for tr "hi" "Spanish"])).
Proof.
  intros svc tr.
  apply (blank_answer_is_asked_again svc "hi" "Spanish" tr [] "   ").
  - constructor.
  - simpl. lia.
  - reflexivity.
  - reflexivity.
  - reflexivity.
Defined.

(** ** FileAdapter: failures, stopping, whole lines *)

Lemma file_finished_frozen (evs : list FileAdapter.event) :
  forall st,
    FileAdapter.at_ st = FileAdapter.Finished ->
    FileAdapter.out_queue (fold_left FileAdapter.step evs st)
    = FileAdapter.out_queue st.
Proof.
  induction evs as [|ev r IH]; intros st Hfin; [reflexivity|].
  simpl. destruct st as [a f ph q]. simpl in Hfin. subst ph.
  destruct ev as [s| | |e]; simpl; now rewrite IH.
Qed.

(** X9. When the file cannot be opened, the adapter emits the one error
    text and nothing else, whatever is appended or asked of it later. *)
Theorem file_open_failure_is_final (a : FileAdapter.t) (file e : string)
    (evs : list FileAdapter.event) :
  FileAdapter.out_queue (FileAdapter.run a file (Some e) evs)
  = [FileAdapter.error_text e].
Proof. unfold FileAdapter.run. now rewrite file_finished_frozen. Qed.

(** X11. A read that raises while the adapter is looping adds the one
    error text and ends the run: nothing is emitted after it. *)
Theorem file_read_error_ends_run (a : FileAdapter.t) (file e : string)
    (evs1 evs2 : list FileAdapter.event) (p : nat) :
  FileAdapter.at_ (FileAdapter.run a file None evs1) = FileAdapter.Looping p ->
  FileAdapter._stop (FileAdapter.self (FileAdapter.run a file None evs1))
  = false ->
  FileAdapter.out_queue
    (FileAdapter.run a file None (evs1 ++ FileAdapter.IterateRaises e :: evs2))
  = FileAdapter.out_queue (FileAdapter.run a file None evs1)
    ++ [FileAdapter.error_text e].
Proof.
  unfold FileAdapter.run. intros Hat Hs. rewrite fold_left_app. simpl.
  destruct (fold_left FileAdapter.step evs1 _) as [a1 f1 ph1 q1].
  simpl in *. subst ph1. rewrite Hs. now rewrite file_finished_frozen.
Qed.

Lemma file_read_error_ends_run_witness :
  FileAdapter.out_queue
    (FileAdapter.run (FileAdapter.init "chat.log") "old" None
       ([FileAdapter.Append ("gg" +++ PyStr.NL); FileAdapter.Iterate]
        ++ FileAdapter.IterateRaises "disk gone"
           :: [FileAdapter.Append ("ez" +++ PyStr.NL); FileAdapter.Iterate]))
  = FileAdapter.out_queue
      (FileAdapter.run (FileAdapter.init "chat.log") "old" None
         [FileAdapter.Append ("gg" +++ PyStr.NL); FileAdapter.Iterate])
    ++ [FileAdapter.error_text "disk gone"].
Proof.
  apply (file_read_error_ends_run (FileAdapter.init "chat.log") "old"
           "disk gone" _ _ 6); reflexivity.
Defined.











(** ** OCRAdapter: what is emitted, failures, stopping *)

Lemma ocr_lines_good (text l : string) :
  In l (OCRAdapter.lines text) ->
  PyStr.truthy l = true /\ PyStr.strip l = l.
Proof.
  unfold OCRAdapter.lines. intros Hin.
  apply in_map_iff in Hin as (l0 & <- & Hl0).
  apply filter_In in Hl0 as [_ Ht].
  split; [exact Ht | apply strip_idempotent].
Qed.

Lemma ocr_emit_incl (ls : list string) :
  forall (a : OCRAdapter.t) (q : list string) (x : string),
    In x (snd (OCRAdapter.emit ls a q)) -> In x q \/ In x ls.
Proof.
  induction ls as [|l r IH]; intros a q x Hin; simpl in *; [now left|].
  destruct (negb (String.eqb l (OCRAdapter._last_text a))).
  - destruct (IH _ _ _ Hin) as [Hq|Hr]; [|tauto].
    apply in_app_iff in Hq as [Hq|[<-|[]]]; tauto.
  - destruct (IH _ _ _ Hin); tauto.
Qed.

Lemma ocr_run_incl (txts : list string) :
  forall (a : OCRAdapter.t) (q : list string) (x : string),
    In x (snd (fold_left OCRAdapter.step
                 (map (fun t => OCRAdapter.Poll (OCRAdapter.Text t)) txts)
                 (a, q))) ->
    In x q \/ exists t, In t txts /\ In x (OCRAdapter.lines t).
Proof.
  induction txts as [|t r IH]; intros a q x Hin; [now left|].
  cbn [map fold_left OCRAdapter.step] in Hin.
  destruct (OCRAdapter._stop a).
  - destruct (IH _ _ _ Hin) as [Hq|(t' & Ht' & Hx)]; [now left|].
    right. exists t'. split; [now right | exact Hx].
  - destruct (OCRAdapter.emit (OCRAdapter.lines t) a q) as [a1 q1] eqn:E.
    destruct (IH _ _ _ Hin) as [Hq|(t' & Ht' & Hx)].
    + pose proof (ocr_emit_incl (OCRAdapter.lines t) a q x) as Hi.
      rewrite E in Hi. destruct (Hi Hq) as [Hq0|Hl]; [now left|].
      right. exists t. split; [now left | exact Hl].
    + right. exists t'. split; [now right | exact Hx].
Qed.

(** The queue the adapter is given plays no part in what it emits. *)
Lemma ocr_emit_prefix (ls : list string) :
  forall (a : OCRAdapter.t) (q : list string),
    OCRAdapter.emit ls a q
    = (fst (OCRAdapter.emit ls a []), q ++ snd (OCRAdapter.emit ls a [])).
Proof.
  induction ls as [|l r IH]; intros a q; simpl.
  - now rewrite app_nil_r.
  - destruct (negb (String.eqb l (OCRAdapter._last_text a))); [|apply IH].
    rewrite (IH _ (q ++ [l])), (IH _ [l]). simpl.
    now rewrite <- app_assoc.
Qed.

Lemma ocr_step_prefix (ev : OCRAdapter.event) (a : OCRAdapter.t)
    (q : list string) :
  OCRAdapter.step (a, q) ev
  = (fst (OCRAdapter.step (a, []) ev), q ++ snd (OCRAdapter.step (a, []) ev)).
Proof.
  destruct ev as [[t|e]|]; simpl.
  - destruct (OCRAdapter._stop a); simpl; [now rewrite app_nil_r|].
    apply ocr_emit_prefix.
  - destruct (OCRAdapter._stop a); simpl; [now rewrite app_nil_r | reflexivity].
  - now rewrite app_nil_r.
Qed.

Lemma ocr_run_prefix (evs : list OCRAdapter.event) :
  forall (a : OCRAdapter.t) (q : list string),
    fold_left OCRAdapter.step evs (a, q)
    = (fst (fold_left OCRAdapter.step evs (a, [])),
       q ++ snd (fold_left OCRAdapter.step evs (a, []))).
Proof.
  induction evs as [|ev r IH]; intros a q; cbn [fold_left].
  - simpl. now rewrite app_nil_r.
  - rewrite (ocr_step_prefix ev a q).
    destruct (OCRAdapter.step (a, []) ev) as [a1 d1]. cbn [fst snd].
    rewrite (IH a1 (q ++ d1)), (IH a1 d1). cbn [fst snd].
    now rewrite <- app_assoc.
Qed.

(** X13. Every line the OCR adapter emits from the texts it reads is
    non-empty and trimmed. *)
Theorem ocr_items_are_trimmed_lines (a : OCRAdapter.t) (txts : list string)
    (x : string) :
  In x (snd (OCRAdapter.run a
               (map (fun t => OCRAdapter.Poll (OCRAdapter.Text t)) txts))) ->
  PyStr.truthy x = true /\ PyStr.strip x = x.
Proof.
  unfold OCRAdapter.run. intros Hin.
  destruct (ocr_run_incl txts a [] x Hin) as [[]|(t & _ & Hx)].
  exact (ocr_lines_good t x Hx).
Qed.

Lemma ocr_items_are_trimmed_lines_witness :
  PyStr.truthy "ez" = true /\ PyStr.strip "ez" = "ez".
Proof.
  apply (ocr_items_are_trimmed_lines
           (OCRAdapter.init OCRAdapter.default_bbox)
           ["  gg " +++ PyStr.NL +++ PyStr.NL +++ " ez  "] "ez").
  vm_compute. right. now left.
Defined.

(** X14. A capture that raises is reported once and changes nothing
    else: the lines emitted before and after it are those of the same run
    without the failure. *)
Theorem ocr_failure_is_transient (a : OCRAdapter.t) (e : string)
    (evs1 evs2 : list OCRAdapter.event) :
  OCRAdapter._stop (fst (OCRAdapter.run a evs1)) = false ->
  exists later,
    snd (OCRAdapter.run a (evs1 ++ evs2))
    = snd (OCRAdapter.run a evs1) ++ later
    /\ snd (OCRAdapter.run a
              (evs1 ++ OCRAdapter.Poll (OCRAdapter.Raises e) :: evs2))
       = snd (OCRAdapter.run a evs1) ++ [OCRAdapter.error_text e] ++ later.
Proof.
  unfold OCRAdapter.run. intros Hs. rewrite !fold_left_app.
  destruct (fold_left OCRAdapter.step evs1 (a, [])) as [a1 q1].
  simpl in Hs. cbn [fold_left OCRAdapter.step]. rewrite Hs.
  exists (snd (fold_left OCRAdapter.step evs2 (a1, []))).
  rewrite (ocr_run_prefix evs2 a1 q1),
          (ocr_run_prefix evs2 a1 (q1 ++ [OCRAdapter.error_text e])).
  simpl. split; [reflexivity|]. now rewrite <- app_assoc.
Qed.

Lemma ocr_failure_is_transient_witness :
  let a := OCRAdapter.init OCRAdapter.default_bbox in
  let evs1 := [OCRAdapter.Poll (OCRAdapter.Text "gg")] in
  let evs2 := [OCRAdapter.Poll (OCRAdapter.Text "gg");
               OCRAdapter.Poll (OCRAdapter.Text "ez")] in
  exists later,
    snd (OCRAdapter.run a (evs1 ++ evs2))
    = snd (OCRAdapter.run a evs1) ++ later
    /\ snd (OCRAdapter.run a
              (evs1 ++ OCRAdapter.Poll (OCRAdapter.Raises "no screen") :: evs2))
       = snd (OCRAdapter.run a evs1)
         ++ [OCRAdapter.error_text "no screen"] ++ later.
Proof.
  intros a evs1 evs2.
  apply (ocr_failure_is_transient a "no screen" evs1 evs2). reflexivity.
Defined.

(** ** ClipboardAdapter: blank reads, failures, stopping *)

Lemma clipboard_step_prefix (ev : ClipboardAdapter.event)
    (a : ClipboardAdapter.t) (q : list string) :
  ClipboardAdapter.step (a, q) ev
  = (fst (ClipboardAdapter.step (a, []) ev),
     q ++ snd (ClipboardAdapter.step (a, []) ev)).
Proof.
  destruct ev as [[txt| |e]|]; simpl.
  - destruct (ClipboardAdapter._stop a); simpl; [now rewrite app_nil_r|].
    destruct (PyStr.truthy (PyStr.strip txt) && _); simpl;
      [reflexivity | now rewrite app_nil_r].
  - destruct (ClipboardAdapter._stop a); simpl; now rewrite app_nil_r.
  - destruct (ClipboardAdapter._stop a); simpl; [now rewrite app_nil_r | reflexivity].
  - now rewrite app_nil_r.
Qed.

Lemma clipboard_run_prefix (evs : list ClipboardAdapter.event) :
  forall (a : ClipboardAdapter.t) (q : list string),
    fold_left ClipboardAdapter.step evs (a, q)
    = (fst (fold_left ClipboardAdapter.step evs (a, [])),
       q ++ snd (fold_left ClipboardAdapter.step evs (a, []))).
Proof.
  induction evs as [|ev r IH]; intros a q; cbn [fold_left].
  - simpl. now rewrite app_nil_r.
  - rewrite (clipboard_step_prefix ev a q).
    destruct (ClipboardAdapter.step (a, []) ev) as [a1 d1]. cbn [fst snd].
    rewrite (IH a1 (q ++ d1)), (IH a1 d1). cbn [fst snd].
    now rewrite <- app_assoc.
Qed.

(** X16. A clipboard that holds only white space, or something that is
    not text, is passed over: such a read emits nothing and is not
    remembered, so the run goes on as if it had not been made. *)
Theorem clipboard_blank_reads_invisible (a : ClipboardAdapter.t)
    (blank : string) (evs1 evs2 : list ClipboardAdapter.event) :
  PyStr.truthy (PyStr.strip blank) = false ->
  ClipboardAdapter.run a
    (evs1 ++ ClipboardAdapter.Poll (ClipboardAdapter.Str blank) :: evs2)
  = ClipboardAdapter.run a (evs1 ++ evs2)
  /\ ClipboardAdapter.run a
       (evs1 ++ ClipboardAdapter.Poll ClipboardAdapter.NotStr :: evs2)
     = ClipboardAdapter.run a (evs1 ++ evs2).
Proof.
  intros Hb. unfold ClipboardAdapter.run. rewrite !fold_left_app.
  destruct (fold_left ClipboardAdapter.step evs1 (a, [])) as [a1 q1].
  cbn [fold_left ClipboardAdapter.step]. rewrite Hb. simpl.
  now destruct (ClipboardAdapter._stop a1).
Qed.

Lemma clipboard_blank_reads_invisible_witness :
  let evs1 := [ClipboardAdapter.Poll (ClipboardAdapter.Str "gg")] in
  let evs2 := [ClipboardAdapter.Poll (ClipboardAdapter.Str "gg")] in
  ClipboardAdapter.run ClipboardAdapter.init
    (evs1 ++ ClipboardAdapter.Poll (ClipboardAdapter.Str "  ") :: evs2)
  = ClipboardAdapter.run ClipboardAdapter.init (evs1 ++ evs2)
  /\ ClipboardAdapter.run ClipboardAdapter.init
       (evs1 ++ ClipboardAdapter.Poll ClipboardAdapter.NotStr :: evs2)
     = ClipboardAdapter.run ClipboardAdapter.init (evs1 ++ evs2).
Proof.
  intros evs1 evs2.
  apply (clipboard_blank_reads_invisible ClipboardAdapter.init "  " evs1 evs2).
  reflexivity.
Defined.

(** X17. A clipboard read that raises is reported once and changes
    nothing else: the items emitted before and after it are those of the
    same run without the failure. *)
Theorem clipboard_failure_is_transient (a : ClipboardAdapter.t) (e : string)
    (evs1 evs2 : list ClipboardAdapter.event) :
  ClipboardAdapter._stop (fst (ClipboardAdapter.run a evs1)) = false ->
  exists later,
    snd (ClipboardAdapter.run a (evs1 ++ evs2))
    = snd (ClipboardAdapter.run a evs1) ++ later
    /\ snd (ClipboardAdapter.run a
              (evs1 ++ ClipboardAdapter.Poll (ClipboardAdapter.Raises e) :: evs2))
       = snd (ClipboardAdapter.run a evs1)
         ++ [ClipboardAdapter.error_text e] ++ later.
Proof.
  unfold ClipboardAdapter.run. intros Hs. rewrite !fold_left_app.
  destruct (fold_left ClipboardAdapter.step evs1 (a, [])) as [a1 q1].
  simpl in Hs. cbn [fold_left ClipboardAdapter.step]. rewrite Hs.
  exists (snd (fold_left ClipboardAdapter.step evs2 (a1, []))).
  rewrite (clipboard_run_prefix evs2 a1 q1),
          (clipboard_run_prefix evs2 a1 (q1 ++ [ClipboardAdapter.error_text e])).
  simpl. split; [reflexivity|]. now rewrite <- app_assoc.
Qed.

Lemma clipboard_failure_is_transient_witness :
  let evs1 := [ClipboardAdapter.Poll (ClipboardAdapter.Str "gg")] in
  let evs2 := [ClipboardAdapter.Poll (ClipboardAdapter.Str "gg");
               ClipboardAdapter.Poll (ClipboardAdapter.Str "ez")] in
  exists later,
    snd (ClipboardAdapter.run ClipboardAdapter.init (evs1 ++ evs2))
    = snd (ClipboardAdapter.run ClipboardAdapter.init evs1) ++ later
    /\ snd (ClipboardAdapter.run ClipboardAdapter.init
              (evs1 ++ ClipboardAdapter.Poll (ClipboardAdapter.Raises "locked")
                    :: evs2))
       = snd (ClipboardAdapter.run ClipboardAdapter.init evs1)
         ++ [ClipboardAdapter.error_text "locked"] ++ later.
Proof.
  intros evs1 evs2.
  apply (clipboard_failure_is_transient ClipboardAdapter.init "locked"
           evs1 evs2).
  reflexivity.
Defined.

(** ** TranslatorApp: starting, stopping and browsing *)

(** X19. A [start] that does not get the session running shows one message
    box and starts nothing: no thread, no log line, no adapter, and the
    queues and the buttons are as they were. *)
Theorem start_failure_starts_nothing
    (env : TranslatorApp.environment) (a : TranslatorApp.t) :
  TranslatorApp.running a = false ->
  TranslatorApp.running (TranslatorApp.start env a) = false ->
  TranslatorApp.threads (TranslatorApp.start env a) = TranslatorApp.threads a
  /\ TranslatorApp.log (TranslatorApp.start env a) = TranslatorApp.log a
  /\ TranslatorApp.adapter (TranslatorApp.start env a) = TranslatorApp.adapter a
  /\ TranslatorApp.in_queue (TranslatorApp.start env a) = TranslatorApp.in_queue a
  /\ TranslatorApp.out_queue (TranslatorApp.start env a)
     = TranslatorApp.out_queue a
  /\ TranslatorApp.start_btn_enabled (TranslatorApp.start env a)
     = TranslatorApp.start_btn_enabled a
  /\ TranslatorApp.stop_btn_enabled (TranslatorApp.start env a)
     = TranslatorApp.stop_btn_enabled a
  /\ exists title text,
      TranslatorApp.dialogs (TranslatorApp.start env a)
      = TranslatorApp.dialogs a ++ [(title, text)].
Proof.
  intros Hr. unfold TranslatorApp.start. rewrite Hr.
  destruct (PyStr.falsy _); [intros _; simpl; repeat split; eauto|].
  destruct (String.eqb _ "file").
  { destruct (_ || _); simpl; [intros _; repeat split; eauto | discriminate]. }
  destruct (String.eqb _ "ocr").
  { destruct (negb _); [intros _; simpl; repeat split; eauto|].
    destruct (TranslatorApp.parse_bbox _ _); simpl;
      [discriminate | intros _; repeat split; eauto]. }
  destruct (String.eqb _ "clipboard"); simpl;
    [discriminate | intros _; repeat split; eauto].
Qed.

Lemma start_failure_starts_nothing_witness :
  let env := TranslatorApp.mk_environment None (fun _ => false)
               (fun _ => None) in
  let a := TranslatorApp.init
             (TranslatorApp.mk_inputs "file" "chat.log" "Spanish" "  " false) in
  TranslatorApp.threads (TranslatorApp.start env a) = TranslatorApp.threads a
  /\ TranslatorApp.log (TranslatorApp.start env a) = TranslatorApp.log a
  /\ TranslatorApp.adapter (TranslatorApp.start env a) = TranslatorApp.adapter a
  /\ TranslatorApp.in_queue (TranslatorApp.start env a) = TranslatorApp.in_queue a
  /\ TranslatorApp.out_queue (TranslatorApp.start env a)
     = TranslatorApp.out_queue a
  /\ TranslatorApp.start_btn_enabled (TranslatorApp.start env a)
     = TranslatorApp.start_btn_enabled a
  /\ TranslatorApp.stop_btn_enabled (TranslatorApp.start env a)
     = TranslatorApp.stop_btn_enabled a
  /\ exists title text,
      TranslatorApp.dialogs (TranslatorApp.start env a)
      = TranslatorApp.dialogs a ++ [(title, text)].
Proof.
  intros env a. apply (start_failure_starts_nothing env a); reflexivity.
Defined.

(** X20. A [start] that gets the session running has started exactly the
    adapter thread and the worker thread for the selected language, logged
    one line, shown no message box, made a translator with a key and an
    empty cache of capacity 1500, and built the adapter that was selected,
    not yet stopped: for a file, on the trimmed path, which exists; for the
    screen, on the four numbers read from the source field. *)
Theorem start_success_builds_session
    (env : TranslatorApp.environment) (a : TranslatorApp.t) :
  TranslatorApp.running a = false ->
  TranslatorApp.running (TranslatorApp.start env a) = true ->
  let a' := TranslatorApp.start env a in
  let source := PyStr.strip (TranslatorApp.source_input (TranslatorApp.ui a)) in
  let name := TranslatorApp.adapter_select (TranslatorApp.ui a) in
  TranslatorApp.threads a'
  = TranslatorApp.threads a
    ++ [TranslatorApp.AdapterRun;
        TranslatorApp.Worker (TranslatorApp.lang_select (TranslatorApp.ui a))]
  /\ TranslatorApp.log a'
     = TranslatorApp.log a ++ ["[System] Started adapter: " +++ name]
  /\ TranslatorApp.dialogs a' = TranslatorApp.dialogs a
  /\ TranslatorApp.start_btn_enabled a' = false
  /\ TranslatorApp.stop_btn_enabled a' = true
  /\ (exists tr,
        TranslatorApp.translator a' = Some tr
        /\ Translator.cache tr = SimpleLRU.init 1500
        /\ PyStr.falsy (Translator.api_key tr) = false)
  /\ match TranslatorApp.adapter a' with
     | Some (TranslatorApp.File f) =>
         name = "file" /\ f = FileAdapter.init source
         /\ PyStr.truthy source = true
         /\ TranslatorApp.path_exists env source = true
     | Some (TranslatorApp.OCR o) =>
         name = "ocr"
         /\ exists parts,
             TranslatorApp.parse_bbox env source = Some parts
             /\ List.length parts = 4
             /\ o = OCRAdapter.init parts
     | Some (TranslatorApp.Clipboard c) =>
         name = "clipboard" /\ c = ClipboardAdapter.init
     | None => False
     end.
Proof.
  intros Hr. unfold TranslatorApp.start. rewrite Hr.
  destruct (PyStr.falsy (PyStr.or_else _ _)) eqn:Hkey;
    [simpl; rewrite Hr; discriminate|].
  assert (Htr : PyStr.falsy
                  (Translator.api_key
                     (Translator.init (TranslatorApp.environ_api_key env)
                        (PyStr.or_else
                           (Some (PyStr.strip
                                    (TranslatorApp.api_key_input
                                       (TranslatorApp.ui a))))
                           (TranslatorApp.environ_api_key env))
                        "gpt-4.1-mini" None)) = false).
  { destruct (PyStr.or_else (Some _) _) as [k|] eqn:Ek; [|discriminate Hkey].
    simpl in Hkey. apply negb_false_iff in Hkey.
    unfold Translator.init, Translator.api_key, PyStr.or_else.
    rewrite Hkey. simpl. now rewrite Hkey. }
  destruct (String.eqb _ "file") eqn:Efile.
  { apply String.eqb_eq in Efile.
    destruct (negb (PyStr.truthy _) || negb _) eqn:Ebad;
      [simpl; rewrite Hr; discriminate|].
    apply orb_false_iff in Ebad as [Ht Hp].
    apply negb_false_iff in Ht, Hp.
    intros _. simpl. repeat split; try assumption. eexists. now repeat split. }
  destruct (String.eqb _ "ocr") eqn:Eocr.
  { apply String.eqb_eq in Eocr.
    destruct (negb (PyStr.truthy _)); [simpl; rewrite Hr; discriminate|].
    destruct (TranslatorApp.parse_bbox env _) as [parts|] eqn:Ep;
      [|simpl; rewrite Hr; discriminate].
    intros _. simpl. repeat split; try assumption.
    - eexists. now repeat split.
    - exists parts. split; [reflexivity|]. split; [|reflexivity].
      unfold TranslatorApp.parse_bbox in Ep.
      destruct (TranslatorApp.parse_ints env _) as [ps|]; [|discriminate].
      destruct (List.length ps =? 4) eqn:El; [|discriminate].
      injection Ep as <-. now apply Nat.eqb_eq. }
  destruct (String.eqb _ "clipboard") eqn:Eclip;
    [|simpl; rewrite Hr; discriminate].
  apply String.eqb_eq in Eclip.
  intros _. simpl. repeat split; try assumption. eexists. now repeat split.
Qed.

Lemma start_success_builds_session_witness :
  let env := TranslatorApp.mk_environment (Some "sk-env")
               (fun p => String.eqb p "chat.log") (fun _ => None) in
  let a := TranslatorApp.init
             (TranslatorApp.mk_inputs "file" " chat.log " "Korean" "" true) in
  TranslatorApp.threads (TranslatorApp.start env a)
  = [TranslatorApp.AdapterRun; TranslatorApp.Worker "Korean"]
  /\ TranslatorApp.adapter (TranslatorApp.start env a)
     = Some (TranslatorApp.File (FileAdapter.init "chat.log")).
Proof.
  intros env a.
  destruct (start_success_builds_session env a eq_refl eq_refl)
    as (Hthreads & _).
  split; [exact Hthreads | reflexivity].
Defined.

Ltac settle_consistent Hr :=
  simpl in *; rewrite ?Hr in *; simpl in *;
  split; [|split];
  [ first [assumption | reflexivity]
  | first [assumption | reflexivity]
  | first [assumption
          | (let H0 := fresh in intros H0; discriminate H0)
          | (intros _; split; discriminate)] ].

Lemma consistent_act (env : TranslatorApp.environment) (a : TranslatorApp.t)
    (x : TranslatorApp.action) :
  TranslatorApp.consistent a ->
  TranslatorApp.consistent (TranslatorApp.act env a x).
Proof.
  unfold TranslatorApp.consistent. intros (Hs & Hp & Hrun).
  destruct (TranslatorApp.running a) eqn:Hr.
  - destruct x as [i|picked| |]; cbn [TranslatorApp.act].
    + settle_consistent Hr.
    + unfold TranslatorApp.on_browse.
      destruct (String.eqb _ "file");
        [destruct (PyStr.truthy picked); settle_consistent Hr|].
      destruct (String.eqb _ "ocr"); settle_consistent Hr.
    + unfold TranslatorApp.start. rewrite Hr. settle_consistent Hr.
    + unfold TranslatorApp.stop. rewrite Hr. settle_consistent Hr.
  - destruct x as [i|picked| |]; cbn [TranslatorApp.act].
    + settle_consistent Hr.
    + unfold TranslatorApp.on_browse.
      destruct (String.eqb _ "file");
        [destruct (PyStr.truthy picked); settle_consistent Hr|].
      destruct (String.eqb _ "ocr"); settle_consistent Hr.
    + unfold TranslatorApp.start. rewrite Hr.
      destruct (PyStr.falsy _); [settle_consistent Hr|].
      destruct (String.eqb _ "file");
        [destruct (_ || _); settle_consistent Hr|].
      destruct (String.eqb _ "ocr").
      { destruct (negb (PyStr.truthy _)); [settle_consistent Hr|].
        destruct (TranslatorApp.parse_bbox _ _); settle_consistent Hr. }
      destruct (String.eqb _ "clipboard"); settle_consistent Hr.
    + unfold TranslatorApp.stop. rewrite Hr. settle_consistent Hr.
Qed.

(** X21. Whatever the user does with the window, in whatever order
    (editing the fields, browsing, pressing Start, pressing Stop), the Start
    button is enabled exactly when no session is running, the Stop button
    exactly when one is, and a running session has an adapter and a
    translator. *)
Theorem window_stays_consistent (env : TranslatorApp.environment)
    (ui : TranslatorApp.inputs) (xs : list TranslatorApp.action) :
  TranslatorApp.consistent
    (TranslatorApp.run_actions env xs (TranslatorApp.init ui)).
Proof.
  unfold TranslatorApp.run_actions.
  assert (Hgen : forall a, TranslatorApp.consistent a ->
                 TranslatorApp.consistent
                   (fold_left (TranslatorApp.act env) xs a)).
  { induction xs as [|x r IH]; intros a Ha; simpl; [exact Ha|].
    apply IH, consistent_act, Ha. }
  apply Hgen. unfold TranslatorApp.consistent. simpl.
  repeat split; discriminate.
Qed.

Lemma parse_ints_spec (env : TranslatorApp.environment) (ps : list string) :
  forall zs,
    TranslatorApp.parse_ints env ps = Some zs ->
    Forall2 (fun p z => TranslatorApp.py_int env (PyStr.strip p) = Some z)
      ps zs.
Proof.
  induction ps as [|p r IH]; intros zs E; simpl in E.
  - injection E as <-. constructor.
  - destruct (TranslatorApp.py_int env (PyStr.strip p)) as [z|] eqn:Ez;
      [|discriminate].
    destruct (TranslatorApp.parse_ints env r) as [zs'|]; [|discriminate].
    injection E as <-. constructor; [exact Ez | now apply IH].
Qed.

(** X22. The bounding box is accepted only when the source has exactly
    four fields between commas and [int] accepts each of them once
    trimmed; the box is then those four numbers in order. *)
Theorem parse_bbox_takes_four_fields (env : TranslatorApp.environment)
    (source : string) (parts : list Z) :
  TranslatorApp.parse_bbox env source = Some parts ->
  List.length parts = 4
  /\ List.length (PyStr.split ","%char source) = 4
  /\ Forall2 (fun p z => TranslatorApp.py_int env (PyStr.strip p) = Some z)
       (PyStr.split ","%char source) parts.
Proof.
  unfold TranslatorApp.parse_bbox. intros E.
  destruct (TranslatorApp.parse_ints env _) as [zs|] eqn:Ep; [|discriminate].
  destruct (List.length zs =? 4) eqn:El; [|discriminate].
  injection E as <-. apply Nat.eqb_eq in El.
  pose proof (parse_ints_spec env _ _ Ep) as Hall.
  split; [exact El|]. split; [|exact Hall].
  now rewrite (Forall2_length Hall).
Qed.

Lemma parse_bbox_takes_four_fields_witness :
  let env := TranslatorApp.mk_environment None (fun _ => false)
               (fun p => if String.eqb p "100" then Some 100%Z
                         else if String.eqb p "600" then Some 600%Z
                         else if String.eqb p "900" then Some 900%Z
                         else None) in
  List.length [100; 600; 900; 900]%Z = 4
  /\ List.length (PyStr.split ","%char "100, 600 ,900,900") = 4
  /\ Forall2 (fun p z => TranslatorApp.py_int env (PyStr.strip p) = Some z)
       (PyStr.split ","%char "100, 600 ,900,900") [100; 600; 900; 900]%Z.
Proof.
  intros env.
  apply (parse_bbox_takes_four_fields env "100, 600 ,900,900"
           [100; 600; 900; 900]%Z).
  reflexivity.
Defined.

(** X23. Browsing to a file and then pressing Start tails that file: with
    the file adapter selected, a key at hand and no session running, a path
    picked in the dialog that exists once trimmed becomes the source, and
    the session starts on a file adapter for it. *)
Theorem browse_then_start_tails_file (env : TranslatorApp.environment)
    (a : TranslatorApp.t) (picked : string) :
  TranslatorApp.running a = false ->
  TranslatorApp.adapter_select (TranslatorApp.ui a) = "file" ->
  PyStr.falsy
    (PyStr.or_else
       (Some (PyStr.strip (TranslatorApp.api_key_input (TranslatorApp.ui a))))
       (TranslatorApp.environ_api_key env)) = false ->
  PyStr.truthy (PyStr.strip picked) = true ->
  TranslatorApp.path_exists env (PyStr.strip picked) = true ->
  let a' := TranslatorApp.start env (TranslatorApp.on_browse picked a) in
  TranslatorApp.running a' = true
  /\ TranslatorApp.source_input (TranslatorApp.ui a') = picked
  /\ TranslatorApp.adapter a'
     = Some (TranslatorApp.File (FileAdapter.init (PyStr.strip picked))).
Proof.
  intros Hr Hsel Hkey Ht Hp.
  assert (Hpicked : PyStr.truthy picked = true).
  { destruct picked; [discriminate Ht | reflexivity]. }
  assert (Hb : TranslatorApp.on_browse picked a
               = TranslatorApp.set_source_input a picked).
  { unfold TranslatorApp.on_browse. now rewrite Hsel, Hpicked. }
  rewrite Hb. unfold TranslatorApp.start.
  cbn [TranslatorApp.running TranslatorApp.set_source_input TranslatorApp.ui
       TranslatorApp.api_key_input TranslatorApp.adapter_select
       TranslatorApp.source_input TranslatorApp.lang_select].
  rewrite Hr, Hkey, Hsel, Ht, Hp. simpl. now repeat split.
Qed.

Lemma browse_then_start_tails_file_witness :
  let env := TranslatorApp.mk_environment (Some "sk-env")
               (fun p => String.eqb p "/tmp/chat.log") (fun _ => None) in
  let a := TranslatorApp.init
             (TranslatorApp.mk_inputs "file" "" "German" "" false) in
  let a' := TranslatorApp.start env
              (TranslatorApp.on_browse "/tmp/chat.log" a) in
  TranslatorApp.running a' = true
  /\ TranslatorApp.source_input (TranslatorApp.ui a') = "/tmp/chat.log"
  /\ TranslatorApp.adapter a'
     = Some (TranslatorApp.File
               (FileAdapter.init (PyStr.strip "/tmp/chat.log"))).
Proof.
  intros env a.
  apply (browse_then_start_tails_file env a "/tmp/chat.log"); reflexivity.
Defined.

(** ** The worker and the poller: whole queues *)

Section WorkerMore.
Variable svc : Translator.service.
Variable lang : string.

(** One pass of the worker over a line: the line leaves the ingest queue and
    one object for it joins the render queue. *)
Lemma worker_iteration_spec (a : TranslatorApp.t) (item : string)
    (rest : list string) (tr : Translator.t)
    (calls : list Translator.request) :
  TranslatorApp.running a = true ->
  TranslatorApp.in_queue a = item :: rest ->
  TranslatorApp.translator a = Some tr ->
  OrderedDict.wf (Translator.entries tr) ->
  OrderedDict.len (Translator.entries tr)
  <= SimpleLRU.capacity (Translator.cache tr) ->
  exists a1 obj tr1 new,
    TranslatorApp.worker_iteration svc lang (a, calls)
    = (Return tt, (a1, calls ++ new))
    /\ TranslatorApp.forwarded item obj
    /\ List.length new <= 1
    /\ TranslatorApp.in_queue a1 = rest
    /\ TranslatorApp.out_queue a1 = TranslatorApp.out_queue a ++ [obj]
    /\ TranslatorApp.running a1 = true
    /\ TranslatorApp.log a1 = TranslatorApp.log a
    /\ TranslatorApp.ui a1 = TranslatorApp.ui a
    /\ TranslatorApp.translator a1 = Some tr1
    /\ OrderedDict.wf (Translator.entries tr1)
    /\ OrderedDict.len (Translator.entries tr1)
       <= SimpleLRU.capacity (Translator.cache tr1).
Proof.
  intros Hrun Hq Htr Hwf Hle.
  unfold TranslatorApp.worker_iteration. rewrite Hrun, Hq.
  cbn [negb]. cbv iota.
  destruct (PyStr.startswith item ERROR_TAG) eqn:Htag.
  - eexists. exists (RStr item), tr, []. rewrite app_nil_r.
    split; [reflexivity|]. unfold TranslatorApp.forwarded. rewrite Htag.
    simpl. repeat split; try assumption. lia.
  - cbn [TranslatorApp.translator TranslatorApp.set_in_queue]. rewrite Htr.
    destruct (translate_step svc item lang tr calls Hwf Hle)
      as (r & tr1 & new & E & Hn & Hw1 & Hl1 & _).
    rewrite E. eexists. exists (RPair item r), tr1, new.
    split; [reflexivity|]. unfold TranslatorApp.forwarded. rewrite Htag.
    simpl. repeat split; try assumption. now exists r.
Qed.

Lemma worker_drains (items : list string) :
  forall (a : TranslatorApp.t) (tr : Translator.t)
         (calls : list Translator.request),
    TranslatorApp.running a = true ->
    TranslatorApp.in_queue a = items ->
    TranslatorApp.translator a = Some tr ->
    OrderedDict.wf (Translator.entries tr) ->
    OrderedDict.len (Translator.entries tr)
    <= SimpleLRU.capacity (Translator.cache tr) ->
    exists a' news new,
      TranslatorApp._worker svc lang (List.length items) (a, calls)
      = (Return tt, (a', calls ++ new))
      /\ Forall2 TranslatorApp.forwarded items news
      /\ List.length new <= List.length items
      /\ TranslatorApp.in_queue a' = []
      /\ TranslatorApp.out_queue a' = TranslatorApp.out_queue a ++ news
      /\ TranslatorApp.running a' = true
      /\ TranslatorApp.log a' = TranslatorApp.log a
      /\ TranslatorApp.ui a' = TranslatorApp.ui a.
Proof.
  induction items as [|item rest IH]; intros a tr calls Hrun Hq Htr Hwf Hle.
  - exists a, [], []. simpl. rewrite !app_nil_r.
    repeat split; try assumption; constructor.
  - cbn [List.length TranslatorApp._worker fst]. rewrite Hrun. cbn [negb].
    destruct (worker_iteration_spec a item rest tr calls Hrun Hq Htr Hwf Hle)
      as (a1 & obj & tr1 & new1 & E1 & Hf & Hn1 & Hq1 & Ho1 & Hr1 & Hl1
          & Hu1 & Ht1 & Hw1 & Hs1).
    rewrite E1.
    destruct (IH a1 tr1 (calls ++ new1) Hr1 Hq1 Ht1 Hw1 Hs1)
      as (a' & news & new2 & E2 & Hf2 & Hn2 & Hq2 & Ho2 & Hr2 & Hl2 & Hu2).
    rewrite E2. exists a', (obj :: news), (new1 ++ new2).
    rewrite app_assoc. split; [reflexivity|].
    split; [now constructor|]. rewrite length_app.
    repeat split; try assumption; try congruence; try lia.
    rewrite Ho2, Ho1, <- app_assoc. reflexivity.
Qed.

End WorkerMore.

Lemma forwarded_well_tagged (item : string) (obj : rendered) :
  TranslatorApp.forwarded item obj -> TranslatorApp.well_tagged obj = true.
Proof.
  unfold TranslatorApp.forwarded.
  destruct (PyStr.startswith item ERROR_TAG) eqn:Htag.
  - intros ->. exact Htag.
  - intros [r ->]. reflexivity.
Qed.

Lemma render_well_tagged (overlay : bool) (obj : rendered) :
  TranslatorApp.well_tagged obj = true ->
  TranslatorApp.render overlay obj
  = Some (TranslatorApp.log_entry overlay obj).
Proof.
  destruct obj as [s|o t]; simpl; intros Ht.
  - unfold TranslatorApp.render. simpl. now rewrite Ht.
  - reflexivity.
Qed.

(** The poller on a queue of pairs and tagged texts. *)
Lemma drain_spec (q : list rendered) : forall (a : TranslatorApp.t),
  forallb TranslatorApp.well_tagged q = true ->
  exists a',
    TranslatorApp.drain q a = (Return tt, a')
    /\ TranslatorApp.out_queue a' = []
    /\ TranslatorApp.log a'
       = TranslatorApp.log a
         ++ map (TranslatorApp.log_entry
                   (TranslatorApp.overlay_checkbox (TranslatorApp.ui a))) q
    /\ TranslatorApp.in_queue a' = TranslatorApp.in_queue a
    /\ TranslatorApp.running a' = TranslatorApp.running a
    /\ TranslatorApp.translator a' = TranslatorApp.translator a.
Proof.
  induction q as [|obj rest IH]; intros a Hq.
  - eexists. split; [reflexivity|]. simpl. rewrite app_nil_r. now repeat split.
  - simpl in Hq. apply andb_prop in Hq as [Hobj Hrest].
    cbn [TranslatorApp.drain]. rewrite (render_well_tagged _ obj Hobj).
    destruct (IH (TranslatorApp.log_append a
                    (TranslatorApp.log_entry
                       (TranslatorApp.overlay_checkbox (TranslatorApp.ui a))
                       obj)) Hrest)
      as (a' & E & Ho & Hl & Hi & Hr & Ht).
    exists a'. split; [exact E|]. split; [exact Ho|].
    simpl in Hl, Hi, Hr, Ht. rewrite Hl, <- app_assoc.
    now repeat split.
Qed.

(** X24. The worker handles the ingest queue in order and loses nothing:
    given as many passes as there are items, it never raises, empties the
    ingest queue and adds to the render queue one object per item, in the
    same order: the item itself when it carries the error tag, the item
    paired with some text otherwise. It makes at most one request per item
    and writes nothing to the log. *)
Theorem worker_forwards_in_order (svc : Translator.service) (lang : string)
    (a : TranslatorApp.t) (tr : Translator.t)
    (calls : list Translator.request) :
  TranslatorApp.running a = true ->
  TranslatorApp.translator a = Some tr ->
  OrderedDict.wf (Translator.entries tr) ->
  OrderedDict.len (Translator.entries tr)
  <= SimpleLRU.capacity (Translator.cache tr) ->
  exists a' news new,
    TranslatorApp._worker svc lang (List.length (TranslatorApp.in_queue a))
      (a, calls)
    = (Return tt, (a', calls ++ new))
    /\ Forall2 TranslatorApp.forwarded (TranslatorApp.in_queue a) news
    /\ List.length new <= List.length (TranslatorApp.in_queue a)
    /\ TranslatorApp.in_queue a' = []
    /\ TranslatorApp.out_queue a' = TranslatorApp.out_queue a ++ news
    /\ TranslatorApp.log a' = TranslatorApp.log a.
Proof.
  intros Hrun Htr Hwf Hle.
  destruct (worker_drains svc lang (TranslatorApp.in_queue a) a tr calls
              Hrun eq_refl Htr Hwf Hle)
    as (a' & news & new & E & Hf & Hn & Hq & Ho & _ & Hl & _).
  exists a', news, new. now repeat split.
Qed.

(** X25. On a render queue that holds only pairs and tagged texts, which
    is all the worker puts there, the poller never raises, empties the
    queue and appends one log entry per object, in order: the error line
    for a tagged text, the translation entry of the current display mode
    for a pair. It leaves the ingest queue, the running flag and the
    translator alone. *)
Theorem poller_logs_every_item (a : TranslatorApp.t) :
  forallb TranslatorApp.well_tagged (TranslatorApp.out_queue a) = true ->
  exists a',
    TranslatorApp._process_queues a = (Return tt, a')
    /\ TranslatorApp.out_queue a' = []
    /\ TranslatorApp.log a'
       = TranslatorApp.log a
         ++ map (TranslatorApp.log_entry
                   (TranslatorApp.overlay_checkbox (TranslatorApp.ui a)))
              (TranslatorApp.out_queue a)
    /\ TranslatorApp.in_queue a' = TranslatorApp.in_queue a
    /\ TranslatorApp.running a' = TranslatorApp.running a
    /\ TranslatorApp.translator a' = TranslatorApp.translator a.
Proof.
  intros Hq. unfold TranslatorApp._process_queues.
  destruct (drain_spec (TranslatorApp.out_queue a) a Hq)
    as (a' & E & Ho & Hl & Hi & Hr & Ht).
  exists a'. split; [exact E|]. split; [exact Ho|]. split; [exact Hl|].
  split; [exact Hi|]. split; [exact Hr | exact Ht].
Qed.

(** X26. From the ingest queue to the log: when the worker has been
    through the ingest queue and the poller then runs, nothing has raised,
    both queues are empty, and the log has gained exactly one entry per
    ingested item, in order. *)
Theorem ingested_items_reach_the_log (svc : Translator.service)
    (lang : string) (a : TranslatorApp.t) (tr : Translator.t)
    (calls : list Translator.request) :
  TranslatorApp.running a = true ->
  TranslatorApp.translator a = Some tr ->
  OrderedDict.wf (Translator.entries tr) ->
  OrderedDict.len (Translator.entries tr)
  <= SimpleLRU.capacity (Translator.cache tr) ->
  TranslatorApp.out_queue a = [] ->
  exists a1 calls1 a2 news,
    TranslatorApp._worker svc lang (List.length (TranslatorApp.in_queue a))
      (a, calls)
    = (Return tt, (a1, calls1))
    /\ TranslatorApp._process_queues a1 = (Return tt, a2)
    /\ TranslatorApp.in_queue a2 = []
    /\ TranslatorApp.out_queue a2 = []
    /\ Forall2 TranslatorApp.forwarded (TranslatorApp.in_queue a) news
    /\ TranslatorApp.log a2
       = TranslatorApp.log a
         ++ map (TranslatorApp.log_entry
                   (TranslatorApp.overlay_checkbox (TranslatorApp.ui a)))
              news.
Proof.
  intros Hrun Htr Hwf Hle Hout.
  destruct (worker_drains svc lang (TranslatorApp.in_queue a) a tr calls
              Hrun eq_refl Htr Hwf Hle)
    as (a1 & news & new & E & Hf & _ & Hq1 & Ho1 & _ & Hl1 & Hu1).
  rewrite Hout in Ho1. simpl in Ho1.
  assert (Htagged : forallb TranslatorApp.well_tagged
                      (TranslatorApp.out_queue a1) = true).
  { rewrite Ho1. apply forallb_forall. intros obj Hin.
    clear - Hf Hin. induction Hf as [|item o items objs Hfo _ IH];
      [destruct Hin|].
    destruct Hin as [<-|Hin]; [exact (forwarded_well_tagged item o Hfo)|].
    now apply IH. }
  destruct (drain_spec (TranslatorApp.out_queue a1) a1 Htagged)
    as (a2 & E2 & Ho2 & Hl2 & Hi2 & _).
  exists a1, (calls ++ new), a2, news.
  split; [exact E|]. split; [exact E2|].
  split; [congruence|]. split; [exact Ho2|]. split; [exact Hf|].
  rewrite Hl2, Hl1, Hu1, Ho1. reflexivity.
Qed.

Lemma worker_forwards_in_order_witness :
  let svc : Translator.service := fun _ _ => Translator.Content "hola" in
  let env := TranslatorApp.mk_environment (Some "sk-test") (fun _ => false)
               (fun _ => None) in
  let a := TranslatorApp.set_in_queue
             (TranslatorApp.start env
                (TranslatorApp.init
                   (TranslatorApp.mk_inputs "clipboard" "" "Spanish" "" false)))
             ["hi"; "__ERROR__ ClipboardAdapter: locked"; "hi"] in
  exists a' news new,
    TranslatorApp._worker svc "Spanish"
      (List.length (TranslatorApp.in_queue a)) (a, [])
    = (Return tt, (a', [] ++ new))
    /\ Forall2 TranslatorApp.forwarded (TranslatorApp.in_queue a) news
    /\ List.length new <= List.length (TranslatorApp.in_queue a)
    /\ TranslatorApp.in_queue a' = []
    /\ TranslatorApp.out_queue a' = TranslatorApp.out_queue a ++ news
    /\ TranslatorApp.log a' = TranslatorApp.log a.
Proof.
  intros svc env a.
  apply (worker_forwards_in_order svc "Spanish" a
           (Translator.init (Some "sk-test") (Some "sk-test")
              "gpt-4.1-mini" None) []).
  - reflexivity.
  - reflexivity.
  - constructor.
  - simpl. lia.
Defined.

Lemma poller_logs_every_item_witness :
  let env := TranslatorApp.mk_environment (Some "sk-test") (fun _ => false)
               (fun _ => None) in
  let a := TranslatorApp.set_out_queue
             (TranslatorApp.start env
                (TranslatorApp.init
                   (TranslatorApp.mk_inputs "clipboard" "" "Spanish" "" true)))
             [RPair "hi" "hola"; RStr "__ERROR__ ClipboardAdapter: locked"] in
  exists a',
    TranslatorApp._process_queues a = (Return tt, a')
    /\ TranslatorApp.out_queue a' = []
    /\ TranslatorApp.log a'
       = TranslatorApp.log a
         ++ map (TranslatorApp.log_entry
                   (TranslatorApp.overlay_checkbox (TranslatorApp.ui a)))
              (TranslatorApp.out_queue a)
    /\ TranslatorApp.in_queue a' = TranslatorApp.in_queue a
    /\ TranslatorApp.running a' = TranslatorApp.running a
    /\ TranslatorApp.translator a' = TranslatorApp.translator a.
Proof.
  intros env a. apply (poller_logs_every_item a). reflexivity.
Defined.

Lemma ingested_items_reach_the_log_witness :
  let svc : Translator.service := fun _ _ => Translator.Content "hola" in
  let env := TranslatorApp.mk_environment (Some "sk-test") (fun _ => false)
               (fun _ => None) in
  let a := TranslatorApp.set_in_queue
             (TranslatorApp.start env
                (TranslatorApp.init
                   (TranslatorApp.mk_inputs "clipboard" "" "Spanish" "" false)))
             ["hi"; "__ERROR__ ClipboardAdapter: locked"] in
  exists a1 calls1 a2 news,
    TranslatorApp._worker svc "Spanish"
      (List.length (TranslatorApp.in_queue a)) (a, [])
    = (Return tt, (a1, calls1))
    /\ TranslatorApp._process_queues a1 = (Return tt, a2)
    /\ TranslatorApp.in_queue a2 = []
    /\ TranslatorApp.out_queue a2 = []
    /\ Forall2 TranslatorApp.forwarded (TranslatorApp.in_queue a) news
    /\ TranslatorApp.log a2
       = TranslatorApp.log a
         ++ map (TranslatorApp.log_entry
                   (TranslatorApp.overlay_checkbox (TranslatorApp.ui a)))
              news.
Proof.
  intros svc env a.
  apply (ingested_items_reach_the_log svc "Spanish" a
           (Translator.init (Some "sk-test") (Some "sk-test")
              "gpt-4.1-mini" None) []).
  - reflexivity.
  - reflexivity.
  - constructor.
  - simpl. lia.
  - reflexivity.
Defined.

(** X27. What [start] builds depends only on the fields of the window and
    on the environment: if it gets one idle session running, it gets any
    other idle session with the same fields running too, with the same
    new adapter and the same new translator, whatever adapter and cache
    that session held before. *)
Theorem start_builds_from_window_alone (env : TranslatorApp.environment)
    (a c : TranslatorApp.t) :
  TranslatorApp.running a = false ->
  TranslatorApp.running (TranslatorApp.start env a) = true ->
  TranslatorApp.running c = false ->
  TranslatorApp.ui c = TranslatorApp.ui a ->
  TranslatorApp.running (TranslatorApp.start env c) = true
  /\ TranslatorApp.adapter (TranslatorApp.start env c)
     = TranslatorApp.adapter (TranslatorApp.start env a)
  /\ TranslatorApp.translator (TranslatorApp.start env c)
     = TranslatorApp.translator (TranslatorApp.start env a).
Proof.
  intros Hr Hok Hrc Hui. revert Hok.
  unfold TranslatorApp.start. rewrite Hr, Hrc, Hui.
  destruct (PyStr.falsy _); [simpl; rewrite Hr; discriminate|].
  destruct (String.eqb _ "file").
  { destruct (_ || _); simpl; [rewrite Hr; discriminate | now repeat split]. }
  destruct (String.eqb _ "ocr").
  { destruct (negb (PyStr.truthy _)); [simpl; rewrite Hr; discriminate|].
    destruct (TranslatorApp.parse_bbox _ _); simpl;
      [now repeat split | rewrite Hr; discriminate]. }
  destruct (String.eqb _ "clipboard"); simpl;
    [now repeat split | rewrite Hr; discriminate].
Qed.

(** A session restarted after a stop: the adapter is new and not flagged,
    the translator is new and its cache empty. *)
Lemma start_builds_from_window_alone_witness :
  let env := TranslatorApp.mk_environment (Some "sk-test") (fun _ => false)
               (fun _ => None) in
  let a := TranslatorApp.init
             (TranslatorApp.mk_inputs "clipboard" "" "Spanish" "" false) in
  let c := TranslatorApp.stop (TranslatorApp.start env a) in
  TranslatorApp.running (TranslatorApp.start env c) = true
  /\ TranslatorApp.adapter (TranslatorApp.start env c)
     = TranslatorApp.adapter (TranslatorApp.start env a)
  /\ TranslatorApp.translator (TranslatorApp.start env c)
     = TranslatorApp.translator (TranslatorApp.start env a).
Proof.
  intros env a c.
  apply (start_builds_from_window_alone env a c); reflexivity.
Defined.

(** * The order of eviction *)

Section LRURecency.
Context {K V : Type} `{EqDec K}.
Implicit Types (s : SimpleLRU.t K V) (d : OrderedDict.t K V) (k x : K) (v : V).
Implicit Types (cs : list (SimpleLRU.call K V)) (c : SimpleLRU.call K V).

Lemma last_use_snoc k cs c :
  SimpleLRU.last_use k (cs ++ [c])
  = if eq_dec (SimpleLRU.call_key c) k then S (List.length cs)
    else SimpleLRU.last_use k cs.
Proof.
  induction cs as [|a r IH]; simpl.
  - now destruct (eq_dec (SimpleLRU.call_key c) k).
  - rewrite IH. destruct (eq_dec (SimpleLRU.call_key c) k); [reflexivity|].
    reflexivity.
Qed.

Lemma last_use_le k cs : SimpleLRU.last_use k cs <= List.length cs.
Proof.
  induction cs as [|a r IH]; simpl; [lia|].
  destruct (SimpleLRU.last_use k r); [|lia].
  destruct (eq_dec (SimpleLRU.call_key a) k); lia.
Qed.

Lemma rising_ext (f g : K -> nat) (ks : list K) :
  (forall k, In k ks -> f k = g k) ->
  OrderedDict.rising f ks -> OrderedDict.rising g ks.
Proof.
  induction ks as [|k r IH]; simpl; [trivial|].
  intros Hfg [Hk Hr]. split.
  - rewrite Forall_forall in *. intros j Hj.
    rewrite <- (Hfg k), <- (Hfg j); [now apply Hk | now right | now left].
  - apply IH; [|exact Hr]. intros j Hj. apply Hfg. now right.
Qed.

Lemma rising_delitem (f : K -> nat) x d :
  OrderedDict.rising f (OrderedDict.keys d) ->
  OrderedDict.rising f (OrderedDict.keys (OrderedDict.delitem x d)).
Proof.
  induction d as [|[k' v'] r IH]; simpl; [trivial|].
  intros [Hk Hr]. destruct (eq_dec x k'); [exact Hr|].
  simpl. split; [|now apply IH].
  rewrite Forall_forall in *. intros j Hj. apply Hk.
  eapply keys_delitem_incl, Hj.
Qed.

Lemma rising_snoc (f : K -> nat) (ks : list K) x :
  OrderedDict.rising f ks ->
  Forall (fun j => f j < f x) ks ->
  OrderedDict.rising f (ks ++ [x]).
Proof.
  induction ks as [|k r IH]; simpl.
  - intros _ _. split; [constructor | exact I].
  - intros [Hk Hr] Hall. inversion Hall as [|? ? Hkx Hrx]; subst.
    split; [|now apply IH].
    apply Forall_app. split; [exact Hk|]. now constructor.
Qed.

Lemma rising_tl (f : K -> nat) d :
  OrderedDict.rising f (OrderedDict.keys d) ->
  OrderedDict.rising f (OrderedDict.keys (tl d)).
Proof. destruct d as [|kv r]; simpl; tauto. Qed.

(** Using a key puts it after every other key in the order of last use. *)
Lemma rising_touch cs c v d :
  OrderedDict.wf d ->
  OrderedDict.rising (fun k => SimpleLRU.last_use k cs) (OrderedDict.keys d) ->
  OrderedDict.rising (fun k => SimpleLRU.last_use k (cs ++ [c]))
    (OrderedDict.keys
       (OrderedDict.delitem (SimpleLRU.call_key c) d
        ++ [(SimpleLRU.call_key c, v)])).
Proof.
  intros Hwf Hr. set (x := SimpleLRU.call_key c).
  assert (Hother : forall j,
             In j (OrderedDict.keys (OrderedDict.delitem x d)) ->
             SimpleLRU.last_use j cs = SimpleLRU.last_use j (cs ++ [c])).
  { intros j Hj. rewrite last_use_snoc. fold x.
    destruct (eq_dec x j) as [<-|]; [|reflexivity].
    exfalso. now apply (delitem_removes x d Hwf). }
  unfold OrderedDict.keys. rewrite map_app. simpl.
  apply rising_snoc.
  - apply (rising_ext (fun k => SimpleLRU.last_use k cs)); [exact Hother|].
    now apply rising_delitem.
  - apply Forall_forall. intros j Hj.
    rewrite <- (Hother j Hj), last_use_snoc. fold x.
    destruct (eq_dec x x); [|contradiction].
    pose proof (last_use_le j cs). lia.
Qed.

Lemma run_calls_snoc cs c s :
  SimpleLRU.run_calls (cs ++ [c]) s
  = match SimpleLRU.run_calls cs s with
    | (Return _, s') => SimpleLRU.run_call c s'
    | (Raise e, s') => (Raise e, s')
    end.
Proof.
  revert s. induction cs as [|a r IH]; intros s; simpl.
  - now destruct (SimpleLRU.run_call c s) as [[[]|e] s'].
  - destruct (SimpleLRU.run_call a s) as [[u|e] s']; [apply IH | reflexivity].
Qed.

(** After any history of calls on a new cache, the cache holds distinct
    keys within its capacity, in the order in which they were last used. *)
Lemma history_order (C : nat) cs :
  exists s,
    SimpleLRU.run_calls cs (SimpleLRU.init C) = (Return tt, s)
    /\ SimpleLRU.capacity s = C
    /\ OrderedDict.wf (SimpleLRU.cache s)
    /\ OrderedDict.len (SimpleLRU.cache s) <= C
    /\ OrderedDict.rising (fun k => SimpleLRU.last_use k cs)
         (OrderedDict.keys (SimpleLRU.cache s)).
Proof.
  induction cs as [|c cs IH] using rev_ind.
  - exists (SimpleLRU.init C). simpl. repeat split; [constructor | lia].
  - destruct IH as (s & E & Hc & Hwf & Hle & Hr).
    rewrite run_calls_snoc, E.
    assert (Hle' : OrderedDict.len (SimpleLRU.cache s) <= SimpleLRU.capacity s)
      by lia.
    destruct (run_call_invariant c s Hwf Hle') as (s' & E' & Hc' & Hwf' & Hl').
    exists s'. split; [exact E'|]. split; [congruence|].
    split; [exact Hwf'|]. split; [lia|].
    destruct c as [x|x v]; simpl in E'.
    + rewrite (get_spec x s Hwf) in E'.
      destruct (OrderedDict.getitem x (SimpleLRU.cache s)) as [v|] eqn:Ex;
        injection E' as <-.
      * apply (rising_touch cs (SimpleLRU.Get x) v _ Hwf Hr).
      * apply (rising_ext (fun k => SimpleLRU.last_use k cs)); [|exact Hr].
        intros j Hj. rewrite last_use_snoc. simpl.
        destruct (eq_dec x j) as [<-|]; [|reflexivity].
        exfalso. now apply (proj1 (getitem_None_iff x _) Ex).
    + rewrite put_spec in E'. injection E' as <-. simpl.
      pose proof (rising_touch cs (SimpleLRU.Put x v) v _ Hwf Hr) as Ht.
      simpl in Ht. destruct (_ <? _); [now apply rising_tl | exact Ht].
Qed.

Lemma getitem_skipn_absent k (n : nat) d :
  OrderedDict.getitem k d = None ->
  OrderedDict.getitem k (skipn n d) = None.
Proof.
  revert d. induction n as [|n IH]; intros d; [trivial|].
  destruct d as [|[k' v'] r]; simpl; [trivial|].
  destruct (eq_dec k k'); [discriminate | apply IH].
Qed.

Lemma keys_skipn_incl k (n : nat) d :
  In k (OrderedDict.keys (skipn n d)) -> In k (OrderedDict.keys d).
Proof.
  revert d. induction n as [|n IH]; intros d; [trivial|].
  destruct d as [|kv r]; simpl; [trivial|]. intros Hin. right. now apply IH.
Qed.

(** C3. A run of [put]s on a cache within its capacity never raises and
    leaves it within its capacity.  A [put] of a new key into a full cache
    drops the item at the front of the order and nothing else; and after
    any history of [get]s and [put]s on a new cache, the item at the front
    is the least recently used one: every other key the cache holds was
    last used (put, or found by a [get]) strictly later.  After
    [capacity + 1] distinct keys have been put into a new cache, the first
    of them is gone and all the others are retrieved with their values. *)
Theorem lru_capacity_and_eviction :
  (forall s (kvs : list (K * V)),
      OrderedDict.len (SimpleLRU.cache s) <= SimpleLRU.capacity s ->
      exists s', SimpleLRU.put_all kvs s = (Return tt, s')
        /\ SimpleLRU.capacity s' = SimpleLRU.capacity s
        /\ OrderedDict.len (SimpleLRU.cache s') <= SimpleLRU.capacity s')
  /\ (forall s k v,
      OrderedDict.len (SimpleLRU.cache s) = SimpleLRU.capacity s ->
      OrderedDict.contains k (SimpleLRU.cache s) = false ->
      SimpleLRU.put k v s
      = (Return tt,
         SimpleLRU.set_cache s (tl (SimpleLRU.cache s ++ [(k, v)]))))
  /\ (forall (C : nat) cs k v,
      1 <= C ->
      exists s,
        SimpleLRU.run_calls cs (SimpleLRU.init C) = (Return tt, s)
        /\ (OrderedDict.len (SimpleLRU.cache s) = SimpleLRU.capacity s ->
            OrderedDict.contains k (SimpleLRU.cache s) = false ->
            exists e ve rest,
              SimpleLRU.cache s = (e, ve) :: rest
              /\ SimpleLRU.put k v s
                 = (Return tt, SimpleLRU.set_cache s (rest ++ [(k, v)]))
              /\ Forall (fun j => SimpleLRU.last_use e cs
                                  < SimpleLRU.last_use j cs)
                   (OrderedDict.keys rest)))
  /\ (forall (C : nat) k1 v1 (rest : list (K * V)),
      NoDup (k1 :: map fst rest) ->
      List.length rest = C ->
      exists s',
        SimpleLRU.put_all ((k1, v1) :: rest) (SimpleLRU.init C)
        = (Return tt, s')
        /\ SimpleLRU.cache s' = rest
        /\ fst (SimpleLRU.get k1 s') = Return None
        /\ forall k v, In (k, v) rest ->
                       fst (SimpleLRU.get k s') = Return (Some v)).
Proof.
  split; [|split; [|split]].
  - intros s kvs. apply put_all_size.
  - intros s k v. apply put_full.
  - intros C cs k v HC.
    destruct (history_order C cs) as (s & E & Hc & Hwf & Hle & Hr).
    exists s. split; [exact E|]. intros Hfull Hnew.
    destruct (SimpleLRU.cache s) as [|[e ve] rest] eqn:Ed.
    + unfold OrderedDict.len in Hfull. simpl in Hfull. lia.
    + exists e, ve, rest. split; [reflexivity|]. split.
      * rewrite (put_full k v s); [now rewrite Ed | now rewrite Ed | now rewrite Ed].
      * simpl in Hr. exact (proj1 Hr).
  - intros C k1 v1 rest Hnd Hlen.
    assert (E : SimpleLRU.put_all ((k1, v1) :: rest) (SimpleLRU.init C)
                = (Return tt, SimpleLRU.mk C rest)).
    { rewrite put_all_fresh;
        [| exact Hnd | simpl; tauto | unfold OrderedDict.len; simpl; lia].
      unfold SimpleLRU.init, SimpleLRU.set_cache.
      cbn [SimpleLRU.cache SimpleLRU.capacity app List.length].
      now replace (S (List.length rest) - C) with 1 by lia. }
    exists (SimpleLRU.mk C rest). split; [exact E|].
    inversion Hnd as [|? ? Hk1 Hnd']; subst.
    split; [reflexivity|]. split.
    + rewrite get_spec by exact Hnd'. simpl.
      now rewrite (proj2 (getitem_None_iff k1 rest) Hk1).
    + intros k v Hin. rewrite get_spec by exact Hnd'. simpl.
      now rewrite (getitem_In k v rest Hnd' Hin).
Qed.

End LRURecency.

Section LRURead.
Context {K V : Type} `{EqDec K}.
Implicit Types (s : SimpleLRU.t K V) (d : OrderedDict.t K V) (k x : K) (v : V).

Lemma skipn_app_short (n : nat) (l1 l2 : list (K * V)) :
  n <= List.length l1 -> skipn n (l1 ++ l2) = skipn n l1 ++ l2.
Proof.
  intros Hn. rewrite skipn_app.
  now replace (n - List.length l1) with 0 by lia.
Qed.

Lemma skipn_app_long (n : nat) (l1 l2 : list (K * V)) :
  List.length l1 <= n -> skipn n (l1 ++ l2) = skipn (n - List.length l1) l2.
Proof.
  intros Hn. rewrite skipn_app, skipn_all2 by exact Hn. reflexivity.
Qed.

(** C4. A [get] that hits moves the key to the end of the order, and the
    key is then the last of the keys the cache holds to be evicted as new
    keys are put in: the cache afterwards is exactly the newest items of the
    old ones without [k], then [k], then the new ones, as many as fit.  So
    [k] stays, with its value, through any number of insertions below the
    capacity; it is gone once as many keys as the capacity have been
    inserted; no other old key outlives it; and after one insertion fewer
    than the capacity it is the only old key left.  More generally,
    whatever [get]s and [put]s follow the read, a key [j] that none of them
    names is lost before [k] is. *)
Theorem get_marks_most_recently_used s k v (news : list (K * V)) :
  OrderedDict.wf (SimpleLRU.cache s) ->
  OrderedDict.len (SimpleLRU.cache s) <= SimpleLRU.capacity s ->
  OrderedDict.getitem k (SimpleLRU.cache s) = Some v ->
  NoDup (map fst news) ->
  (forall x, In x (map fst news) ->
             ~ In x (OrderedDict.keys (SimpleLRU.cache s))) ->
  exists s1 s2,
    SimpleLRU.get k s = (Return (Some v), s1)
    /\ SimpleLRU.cache s1
       = OrderedDict.delitem k (SimpleLRU.cache s) ++ [(k, v)]
    /\ SimpleLRU.put_all news s1 = (Return tt, s2)
    /\ SimpleLRU.cache s2
       = skipn (OrderedDict.len (SimpleLRU.cache s) + List.length news
                - SimpleLRU.capacity s)
           (OrderedDict.delitem k (SimpleLRU.cache s) ++ (k, v) :: news)
    /\ (List.length news < SimpleLRU.capacity s ->
        OrderedDict.getitem k (SimpleLRU.cache s2) = Some v)
    /\ (SimpleLRU.capacity s <= List.length news ->
        OrderedDict.contains k (SimpleLRU.cache s2) = false)
    /\ (forall j, j <> k ->
                  In j (OrderedDict.keys (SimpleLRU.cache s)) ->
                  OrderedDict.contains j (SimpleLRU.cache s2) = true ->
                  OrderedDict.contains k (SimpleLRU.cache s2) = true)
    /\ (S (List.length news) = SimpleLRU.capacity s ->
        SimpleLRU.cache s2 = (k, v) :: news)
    /\ (forall j (cs : list (SimpleLRU.call K V)),
           j <> k ->
           (forall c, In c cs -> SimpleLRU.call_key c <> j) ->
           exists s3,
             SimpleLRU.run_calls cs s1 = (Return tt, s3)
             /\ (OrderedDict.contains j (SimpleLRU.cache s3) = true ->
                 OrderedDict.contains k (SimpleLRU.cache s3) = true)).
Proof.
  unfold OrderedDict.len. intros Hwf Hle Hk Hnd Hfresh.
  set (d := SimpleLRU.cache s) in *.
  set (old := OrderedDict.delitem k d).
  pose proof (length_delitem_present k v d Hk) as Hlen. fold old in Hlen.
  assert (Hkd : In k (OrderedDict.keys d)).
  { apply contains_true_iff. unfold OrderedDict.contains. now rewrite Hk. }
  assert (Hkold : OrderedDict.getitem k old = None)
    by now apply getitem_delitem_same.
  assert (Hknew : OrderedDict.getitem k news = None).
  { apply getitem_None_iff. intros Hin. now apply (Hfresh k). }
  set (s1 := SimpleLRU.set_cache s (old ++ [(k, v)])).
  assert (Hget : SimpleLRU.get k s = (Return (Some v), s1)).
  { rewrite (get_spec k s Hwf). fold d. now rewrite Hk. }
  assert (Hput : SimpleLRU.put_all news s1
                 = (Return tt,
                    SimpleLRU.set_cache s1
                      (skipn (List.length d + List.length news
                              - SimpleLRU.capacity s)
                         (old ++ (k, v) :: news)))).
  { rewrite put_all_fresh; [| exact Hnd | |].
    - change (SimpleLRU.cache s1) with (old ++ [(k, v)]).
      change (SimpleLRU.capacity s1) with (SimpleLRU.capacity s).
      rewrite <- app_assoc. cbn [app].
      rewrite !length_app. cbn [List.length].
      replace (List.length old + S (List.length news))
        with (List.length d + List.length news) by lia.
      reflexivity.
    - intros x Hx Hin. subst s1. simpl in Hin.
      unfold OrderedDict.keys in Hin. rewrite map_app, in_app_iff in Hin.
      destruct Hin as [Hin|[E|[]]].
      + apply (Hfresh x Hx). eapply keys_delitem_incl, Hin.
      + simpl in E. subst x. now apply (Hfresh k).
    - subst s1. unfold OrderedDict.len. simpl. rewrite length_app. simpl. lia. }
  set (m := List.length d + List.length news - SimpleLRU.capacity s) in *.
  eexists s1, _. split; [exact Hget|]. split; [reflexivity|].
  split; [exact Hput|]. cbn [SimpleLRU.cache SimpleLRU.set_cache].
  split; [reflexivity|].
  assert (Hstay : m <= List.length old ->
                  OrderedDict.getitem k (skipn m (old ++ (k, v) :: news))
                  = Some v).
  { intros Hm. rewrite (skipn_app_short m old _ Hm).
    rewrite getitem_app_absent by now apply getitem_skipn_absent.
    simpl. now destruct (eq_dec k k). }
  split; [intros Hn; apply Hstay; lia|]. split; [|split; [|split]].
  - intros Hn. unfold OrderedDict.contains.
    change (old ++ (k, v) :: news) with (old ++ [(k, v)] ++ news).
    rewrite app_assoc, skipn_app_long by (rewrite length_app; simpl; lia).
    now rewrite getitem_skipn_absent.
  - intros j Hjk Hj Hin.
    destruct (Nat.le_gt_cases m (List.length old)) as [Hm|Hm].
    + unfold OrderedDict.contains. now rewrite (Hstay Hm).
    + exfalso. apply contains_true_iff in Hin.
      change (old ++ (k, v) :: news) with (old ++ [(k, v)] ++ news) in Hin.
      rewrite app_assoc, skipn_app_long in Hin
        by (rewrite length_app; simpl; lia).
      apply keys_skipn_incl in Hin. now apply (Hfresh j).
  - intros Hn. rewrite (skipn_app_short m old) by lia.
    replace m with (List.length old) by lia.
    now rewrite skipn_all.
  - intros j cs Hjk Hcs.
    destruct (run_calls_keep_order j k cs s1 Hcs) as (s3 & E & Hord).
    + subst s1. simpl. now apply wf_touch.
    + subst s1. simpl. intros Hin. exists old, [(k, v)].
      split; [reflexivity|]. split; [|now left].
      unfold OrderedDict.keys in Hin. rewrite map_app, in_app_iff in Hin.
      destruct Hin as [Hin|[E'|[]]]; [exact Hin | simpl in E'; congruence].
    + exists s3. split; [exact E|].
      rewrite !contains_true_iff. intros Hin.
      eapply precedes_In, Hord, Hin.
Qed.

End LRURead.

(** A cache of capacity 2: three puts keep it within capacity; putting c
    when it holds a and b drops a; after putting a, putting b and reading a,
    the item at the front is b, used before a, and putting c drops it; after
    a, b, c put in turn the cache holds b and c and has lost a. *)
Lemma lru_capacity_and_eviction_witness :
  let abc := [("a", "1"); ("b", "2"); ("c", "3")] in
  let ab := SimpleLRU.mk 2 [("a", "1"); ("b", "2")] in
  let history :=
    [SimpleLRU.Put "a" "1"; SimpleLRU.Put "b" "2"; SimpleLRU.Get "a"] in
  let ba := SimpleLRU.mk 2 [("b", "2"); ("a", "1")] in
  (exists s',
      SimpleLRU.put_all abc (SimpleLRU.init 2) = (Return tt, s')
      /\ SimpleLRU.capacity s'
         = SimpleLRU.capacity (@SimpleLRU.init string string 2)
      /\ OrderedDict.len (SimpleLRU.cache s') <= SimpleLRU.capacity s')
  /\ SimpleLRU.put "c" "3" ab
     = (Return tt,
        SimpleLRU.set_cache ab (tl (SimpleLRU.cache ab ++ [("c", "3")])))
  /\ (exists e ve rest,
        SimpleLRU.cache ba = (e, ve) :: rest
        /\ SimpleLRU.put "c" "3" ba
           = (Return tt, SimpleLRU.set_cache ba (rest ++ [("c", "3")]))
        /\ Forall (fun j => SimpleLRU.last_use e history
                            < SimpleLRU.last_use j history)
             (OrderedDict.keys rest))
  /\ exists s',
      SimpleLRU.put_all abc (SimpleLRU.init 2) = (Return tt, s')
      /\ SimpleLRU.cache s' = [("b", "2"); ("c", "3")]
      /\ fst (SimpleLRU.get "a" s') = Return None
      /\ forall k v, In (k, v) [("b", "2"); ("c", "3")] ->
                     fst (SimpleLRU.get k s') = Return (Some v).
Proof.
  intros abc ab history ba.
  destruct (@lru_capacity_and_eviction string string _) as (H1 & H2 & H3 & H4).
  split; [|split; [|split]].
  - apply (H1 (SimpleLRU.init 2) abc). simpl. lia.
  - apply (H2 ab "c" "3"); reflexivity.
  - destruct (H3 2 history "c" "3") as (s & E & Hevict); [lia|].
    vm_compute in E. injection E as <-.
    apply Hevict; reflexivity.
  - apply (H4 2 "a" "1" [("b", "2"); ("c", "3")]).
    + repeat constructor; simpl; intuition discriminate.
    + reflexivity.
Defined.

(** In a cache of capacity 2 holding a then b, reading a and then putting c
    evicts b and keeps a. *)
Lemma get_marks_most_recently_used_witness :
  let s := SimpleLRU.mk 2 [("a", "1"); ("b", "2")] in
  exists s1 s2,
    SimpleLRU.get "a" s = (Return (Some "1"), s1)
    /\ SimpleLRU.cache s1
       = OrderedDict.delitem "a" (SimpleLRU.cache s) ++ [("a", "1")]
    /\ SimpleLRU.put_all [("c", "3")] s1 = (Return tt, s2)
    /\ SimpleLRU.cache s2
       = skipn (OrderedDict.len (SimpleLRU.cache s) + 1 - SimpleLRU.capacity s)
           (OrderedDict.delitem "a" (SimpleLRU.cache s)
            ++ ("a", "1") :: [("c", "3")])
    /\ (1 < SimpleLRU.capacity s ->
        OrderedDict.getitem "a" (SimpleLRU.cache s2) = Some "1")
    /\ (SimpleLRU.capacity s <= 1 ->
        OrderedDict.contains "a" (SimpleLRU.cache s2) = false)
    /\ (forall j, j <> "a" ->
                  In j (OrderedDict.keys (SimpleLRU.cache s)) ->
                  OrderedDict.contains j (SimpleLRU.cache s2) = true ->
                  OrderedDict.contains "a" (SimpleLRU.cache s2) = true)
    /\ (2 = SimpleLRU.capacity s ->
        SimpleLRU.cache s2 = [("a", "1"); ("c", "3")])
    /\ (forall j (cs : list (SimpleLRU.call string string)),
           j <> "a" ->
           (forall c, In c cs -> SimpleLRU.call_key c <> j) ->
           exists s3,
             SimpleLRU.run_calls cs s1 = (Return tt, s3)
             /\ (OrderedDict.contains j (SimpleLRU.cache s3) = true ->
                 OrderedDict.contains "a" (SimpleLRU.cache s3) = true)).
Proof.
  intros s.
  apply (get_marks_most_recently_used s "a" "1" [("c", "3")]).
  - repeat constructor; simpl; intuition discriminate.
  - simpl. lia.
  - reflexivity.
  - repeat constructor; simpl; tauto.
  - simpl. intros x [<-|[]]. intuition discriminate.
Defined.

(** * The file adapter, read by read *)




(** One write of a whole line read in one go is one item, not two; a read
    that raises is the last thing a run emits; and a read made after [stop]
    emits nothing. *)
Example file_follow_cases :
  FileAdapter.follow EmptyString false
    [FileAdapter.Append ("gg ez" +++ PyStr.NL); FileAdapter.Iterate;
     FileAdapter.Iterate]
  = ["gg ez"]
  /\ FileAdapter.follow EmptyString false
       [FileAdapter.Append ("gg" +++ PyStr.NL); FileAdapter.Iterate;
        FileAdapter.IterateRaises "gone";
        FileAdapter.Append ("ez" +++ PyStr.NL); FileAdapter.Iterate]
     = ["gg"; FileAdapter.error_text "gone"]
  /\ FileAdapter.follow EmptyString false
       [FileAdapter.Append ("gg" +++ PyStr.NL); FileAdapter.StopRequest;
        FileAdapter.Iterate]
     = [].
Proof. repeat split. Qed.

(** * Stopping the adapters *)

(** ** FileAdapter *)



(** The finer account agrees with the coarser one when nothing falls
    between the test of an iteration and its body. *)
Lemma file_ticks_step (st : FileAdapter.state) (th : FileAdapter.thread)
    (ev : FileAdapter.event) :
  FileAdapter.same_moment st th ->
  FileAdapter.same_moment (FileAdapter.step st ev)
    (fold_left FileAdapter.tick_step (FileAdapter.ticks_of ev) th).
Proof.
  destruct st as [a f ph q], th as [a' f' pl q'].
  unfold FileAdapter.same_moment. simpl. intros (<- & <- & <- & Hpl).
  destruct ev as [s| | |e]; simpl.
  - now destruct ph, pl.
  - now destruct ph, pl.
  - destruct ph as [p|], pl as [p'|p'|]; try contradiction; simpl.
    + subst p'. destruct (FileAdapter._stop a); simpl; [tauto|].
      destruct (PyStr.truthy _); simpl; tauto.
    + tauto.
  - destruct ph as [p|], pl as [p'|p'|]; try contradiction; simpl.
    + destruct (FileAdapter._stop a); simpl; tauto.
    + tauto.
Qed.

Lemma file_ticks_agree (a : FileAdapter.t) (file : string)
    (open_raises : option string) (evs : list FileAdapter.event) :
  FileAdapter.same_moment (FileAdapter.run a file open_raises evs)
    (FileAdapter.run_ticks a file open_raises
       (flat_map FileAdapter.ticks_of evs)).
Proof.
  unfold FileAdapter.run, FileAdapter.run_ticks.
  assert (H0 : FileAdapter.same_moment
                 (FileAdapter.enter a file open_raises)
                 (FileAdapter.enter_thread a file open_raises)).
  { destruct open_raises; simpl; unfold FileAdapter.same_moment; simpl; tauto. }
  revert H0.
  generalize (FileAdapter.enter a file open_raises),
    (FileAdapter.enter_thread a file open_raises).
  induction evs as [|ev r IH]; intros st th Hst; [exact Hst|].
  cbn [flat_map fold_left]. rewrite fold_left_app.
  apply IH, file_ticks_step, Hst.
Qed.



(** ** OCRAdapter *)







(** The finer account agrees with the coarser one when nothing falls
    between the test of an iteration and its body. *)
Lemma ocr_ticks_agree (evs : list OCRAdapter.event) :
  forall (a : OCRAdapter.t) (q : list string) (pl : OCRAdapter.place),
    pl = OCRAdapter.AtTest
    \/ (pl = OCRAdapter.Returned /\ OCRAdapter._stop a = true) ->
    let th := fold_left OCRAdapter.tick_step
                (flat_map OCRAdapter.ticks_of evs)
                (OCRAdapter.mk_thread a pl q) in
    fold_left OCRAdapter.step evs (a, q)
    = (OCRAdapter.t_self th, OCRAdapter.t_queue th).
Proof.
  induction evs as [|ev r IH]; intros a q pl Hpl; [reflexivity|].
  cbn [flat_map fold_left]. cbv zeta. rewrite fold_left_app.
  destruct ev as [c|].
  - cbn [OCRAdapter.ticks_of OCRAdapter.step fold_left].
    destruct Hpl as [->|[-> Hs]].
    + cbn [OCRAdapter.tick_step OCRAdapter.t_at OCRAdapter.t_self
             OCRAdapter.t_queue].
      destruct (OCRAdapter._stop a) eqn:Hs.
      * cbn [OCRAdapter.tick_step OCRAdapter.t_at].
        apply (IH a q OCRAdapter.Returned). now right.
      * cbn [OCRAdapter.tick_step OCRAdapter.t_at OCRAdapter.t_self
               OCRAdapter.t_queue].
        change (match c with
                | OCRAdapter.Text s => OCRAdapter.emit (OCRAdapter.lines s) a q
                | OCRAdapter.Raises e => (a, q ++ [OCRAdapter.error_text e])
                end) with (OCRAdapter.body c a q).
        destruct (OCRAdapter.body c a q) as [a1 q1].
        apply (IH a1 q1 OCRAdapter.AtTest). now left.
    + rewrite Hs. cbn [OCRAdapter.tick_step OCRAdapter.t_at].
      apply (IH a q OCRAdapter.Returned). now right.
  - cbn [OCRAdapter.ticks_of OCRAdapter.step fold_left OCRAdapter.tick_step
           OCRAdapter.t_at OCRAdapter.t_self OCRAdapter.t_queue].
    apply (IH (OCRAdapter.stop a) q pl).
    destruct Hpl as [->|[-> _]]; [now left | now right].
Qed.



(** ** ClipboardAdapter *)




Lemma clipboard_step_body (p : ClipboardAdapter.paste)
    (a : ClipboardAdapter.t) (q : list string) :
  ClipboardAdapter.step (a, q) (ClipboardAdapter.Poll p)
  = if ClipboardAdapter._stop a then (a, q) else ClipboardAdapter.body p a q.
Proof.
  unfold ClipboardAdapter.step, ClipboardAdapter.body.
  destruct a as [st last]. cbn [ClipboardAdapter._stop ClipboardAdapter._last].
  destruct st; [reflexivity|]. destruct p as [txt| |e]; try reflexivity.
Qed.

(** The finer account agrees with the coarser one when nothing falls
    between the test of an iteration and its body. *)
Lemma clipboard_ticks_agree (evs : list ClipboardAdapter.event) :
  forall (a : ClipboardAdapter.t) (q : list string)
         (pl : ClipboardAdapter.place),
    pl = ClipboardAdapter.AtTest
    \/ (pl = ClipboardAdapter.Returned /\ ClipboardAdapter._stop a = true) ->
    let th := fold_left ClipboardAdapter.tick_step
                (flat_map ClipboardAdapter.ticks_of evs)
                (ClipboardAdapter.mk_thread a pl q) in
    fold_left ClipboardAdapter.step evs (a, q)
    = (ClipboardAdapter.t_self th, ClipboardAdapter.t_queue th).
Proof.
  induction evs as [|ev r IH]; intros a q pl Hpl; [reflexivity|].
  cbn [flat_map fold_left]. cbv zeta. rewrite fold_left_app.
  destruct ev as [p|].
  - cbn [ClipboardAdapter.ticks_of fold_left].
    rewrite clipboard_step_body.
    destruct Hpl as [->|[-> Hs]].
    + cbn [ClipboardAdapter.tick_step ClipboardAdapter.t_at
             ClipboardAdapter.t_self ClipboardAdapter.t_queue].
      destruct (ClipboardAdapter._stop a) eqn:Hs.
      * cbn [ClipboardAdapter.tick_step ClipboardAdapter.t_at].
        apply (IH a q ClipboardAdapter.Returned). now right.
      * cbn [ClipboardAdapter.tick_step ClipboardAdapter.t_at
               ClipboardAdapter.t_self ClipboardAdapter.t_queue].
        destruct (ClipboardAdapter.body p a q) as [a1 q1].
        apply (IH a1 q1 ClipboardAdapter.AtTest). now left.
    + rewrite Hs. cbn [ClipboardAdapter.tick_step ClipboardAdapter.t_at].
      apply (IH a q ClipboardAdapter.Returned). now right.
  - cbn [ClipboardAdapter.ticks_of ClipboardAdapter.step fold_left
           ClipboardAdapter.tick_step ClipboardAdapter.t_at
           ClipboardAdapter.t_self ClipboardAdapter.t_queue].
    apply (IH (ClipboardAdapter.stop a) q pl).
    destruct Hpl as [->|[-> _]]; [now left | now right].
Qed.


